(** * QuadTreeImageCompression: a shallow embedding of quadtree_compression.cpp

    The development follows the source file top-down: the region
    statistics ([average_color], [weighted_average], [get_detail]), the
    [Quadrant] node with its constructor and [split_region], and the
    [QuadTree] container with [build], [draw_quadrants], [create_image]
    and the teardown [free_quadtree].

    Conventions of the embedding.
    - C++ [int] is a [Z] whose arithmetic wraps around at 32 bits
      ([int_add], [int_mul]); [uchar] is a [byte].
    - C++ [double] is an exact real number of [R]: rounding is not part
      of the model.  A [float] cell of a histogram is known by its
      IEEE-754 bit pattern ([float_bits]), which is what the program
      reads from it.
    - A [Quadrant*] is an [option Quadrant], [None] being [nullptr];
      dereferencing [None] is the fault [NullDeref].
    - Code that can fail or that recurses without a structural measure
      lives in the error monad [res]; recursion is bounded by a fuel
      argument and each fuelled function comes with the amount of fuel
      that always suffices. *)

From Stdlib Require Import ZArith List Bool Lia Reals Lra.
From Stdlib Require Import Strings.Byte.
From Stdlib Require Import Permutation.
Import ListNotations.
Open Scope Z_scope.

(** ** Machine integers *)

Definition INT_MIN : Z := - 2 ^ 31.
Definition INT_MAX : Z := 2 ^ 31 - 1.

(** Two's complement wrap-around of a 32-bit signed [int]. *)
Definition wrap (z : Z) : Z := (z + 2 ^ 31) mod 2 ^ 32 - 2 ^ 31.

Definition int_add (a b : Z) : Z := wrap (a + b).
Definition int_mul (a b : Z) : Z := wrap (a * b).
(** [a / 2] on [int]: C++ division truncates toward zero. *)
Definition int_half (a : Z) : Z := Z.quot a 2.

Definition in_int (z : Z) : Prop := INT_MIN <= z <= INT_MAX.

(** ** Results of fallible code *)

Inductive error : Type :=
| NullDeref   (* a null [Quadrant*] was dereferenced *)
| CvAssert    (* an OpenCV precondition ([CV_Assert]) failed *)
| OutOfFuel.  (* the recursion bound of the model was reached *)

Inductive res (A : Type) : Type :=
| Ok (a : A)
| Fault (e : error).
Arguments Ok {A} a.
Arguments Fault {A} e.

Definition bind {A B : Type} (m : res A) (k : A -> res B) : res B :=
  match m with
  | Ok a => k a
  | Fault e => Fault e
  end.

Notation "x <- m ;; k" := (bind m (fun x => k))
  (at level 61, m at next level, right associativity).
Notation "' pat <- m ;; k" := (bind m (fun x => match x with pat => k end))
  (at level 61, pat pattern, m at next level, right associativity).

(** ** Pixels, rectangles and matrices *)

Definition uchar := byte.
Definition uchar_val (b : uchar) : Z := Z.of_N (Byte.to_N b).

(** The cast [(uchar)v] of a value that is already integral. *)
Definition to_uchar (z : Z) : uchar :=
  match Byte.of_N (Z.to_N (z mod 256)) with
  | Some b => b
  | None => x00
  end.

(** [cv::Vec3b]: the three 8-bit channels of a pixel, in storage order. *)
Record Vec3b : Type := mkVec3b { ch0 : uchar; ch1 : uchar; ch2 : uchar }.

Definition channel (k : nat) (p : Vec3b) : Z :=
  match k with
  | O => uchar_val (ch0 p)
  | S O => uchar_val (ch1 p)
  | _ => uchar_val (ch2 p)
  end.

(** [cv::Rect]. *)
Record Rect : Type := mkRect { x : Z; y : Z; width : Z; height : Z }.

(** [cv::Mat] of type CV_8UC3, as far as the program looks at it: its
    size and the pixel at each (row, column). *)
Record Mat : Type := mkMat { rows : Z; cols : Z; at_ : Z -> Z -> Vec3b }.

(** Modelled from the spec: [Mat::operator()(Rect)], the sub-rectangle
    read view of OpenCV.  The view shares the pixels of the matrix; a
    rectangle that is not contained in the matrix fails OpenCV's
    assertion. *)
Definition Mat_roi (m : Mat) (r : Rect) : res Mat :=
  if (0 <=? x r) && (0 <=? width r) && (x r + width r <=? cols m)
     && (0 <=? y r) && (0 <=? height r) && (y r + height r <=? rows m)
  then Ok {| rows := height r; cols := width r;
             at_ := fun i j => at_ m (y r + i) (x r + j) |}
  else Fault CvAssert.

Definition Zrange (n : Z) : list Z := map Z.of_nat (seq 0 (Z.to_nat n)).

(** The pixels of a matrix in row-major order. *)
Definition Mat_pixels (m : Mat) : list Vec3b :=
  flat_map (fun i => map (fun j => at_ m i j) (Zrange (cols m)))
           (Zrange (rows m)).

(** ** Region statistics *)

Definition Zsum (l : list Z) : Z := fold_right Z.add 0 l.

(** Modelled from the spec: [cv::mean] followed by the [uchar] casts of
    [average_color]: the per-channel arithmetic mean over all pixels of
    the region, truncated to 8 bits; [cv::mean] of an empty matrix is
    zero. *)
Definition average_color (image : Mat) : Vec3b :=
  let px := Mat_pixels image in
  let n := Z.of_nat (length px) in
  let avg k := if n =? 0 then 0 else Z.quot (Zsum (map (channel k) px)) n in
  mkVec3b (to_uchar (avg 0%nat)) (to_uchar (avg 1%nat)) (to_uchar (avg 2%nat)).

(** Modelled from the spec: [cv::split], the three single-channel planes
    of a region. *)
Definition split (image : Mat) : list (list Z) :=
  map (fun k => map (channel k) (Mat_pixels image)) [0%nat; 1%nat; 2%nat].

(** Modelled from the spec: [cv::calcHist] on one plane with [histSize]
    uniform bins over the range [0, 256): bin [i] is the number of pixels
    whose channel value is [i]. *)
Definition calcHist (plane : list Z) (histSize : Z) : list Z :=
  map (fun i => Z.of_nat (length (filter (Z.eqb i) plane))) (Zrange histSize).

(** [hist[i]] for the [int* hist] of [weighted_average]. *)
Definition hist_at (hist : list Z) (i : Z) : Z := nth (Z.to_nat i) hist 0.

(** First loop of [weighted_average]: [n] iterations from index [i],
    accumulating the [int total] and the [double value]. *)
Fixpoint wa_sum (n : nat) (i : Z) (hist : list Z) (total : Z) (value : R)
  : Z * R :=
  match n with
  | O => (total, value)
  | S n' =>
      wa_sum n' (i + 1) hist
             (int_add total (hist_at hist i))
             (value + IZR (int_mul i (hist_at hist i)))%R
  end.

(** Second loop of [weighted_average]: accumulates the [double error]. *)
Fixpoint wa_err (n : nat) (i : Z) (hist : list Z) (value : R) (error : R)
  : R :=
  match n with
  | O => error
  | S n' =>
      wa_err n' (i + 1) hist value
             (error + IZR (hist_at hist i) * (IZR i - value) * (IZR i - value))%R
  end.

Definition weighted_average (hist : list Z) (size : Z) : R :=
  let '(total, value) := wa_sum (Z.to_nat size) 0 hist 0 0%R in
  if 0 <? total then
    let value := (value / IZR total)%R in
    let error := wa_err (Z.to_nat size) 0 hist value 0%R in
    sqrt (error / IZR total)
  else 0%R.

(** The IEEE-754 binary32 bit pattern, read as an [int], of the [float]
    nearest to the integer [z] (ties to even). *)
Definition float_bits (z : Z) : Z :=
  if z =? 0 then 0
  else
    let m := Z.abs z in
    let e := Z.log2 m in
    let significand :=
      if e <=? 23 then m * 2 ^ (23 - e)
      else
        let q := m / 2 ^ (e - 23) in
        let r := m mod 2 ^ (e - 23) in
        let half := 2 ^ (e - 24) in
        if (half <? r) || ((r =? half) && Z.odd q) then q + 1 else q in
    let magnitude := (e + 127) * 2 ^ 23 + (significand - 2 ^ 23) in
    if z <? 0 then magnitude - 2 ^ 31 else magnitude.

(** The cast [(int * )hist.data].  [cv::calcHist] stores its bins as
    32-bit floats (a CV_32F matrix holding the counts); the cast makes
    [weighted_average] read each cell's bit pattern as an [int]. *)
Definition as_int_buffer (hist : list Z) : list Z := map float_bits hist.

(** [get_detail]. *)
Definition get_detail (image : Mat) : R :=
  let histSize := 256 in
  let bgr_planes := split image in
  let b_hist := calcHist (nth 0 bgr_planes []) histSize in
  let g_hist := calcHist (nth 1 bgr_planes []) histSize in
  let r_hist := calcHist (nth 2 bgr_planes []) histSize in
  let red_detail := weighted_average (as_int_buffer r_hist) histSize in
  let green_detail := weighted_average (as_int_buffer g_hist) histSize in
  let blue_detail := weighted_average (as_int_buffer b_hist) histSize in
  (red_detail * 0.2989 + green_detail * 0.5870 + blue_detail * 0.1140)%R.

(** ** Configuration constants *)

Definition MAX_DEPTH : Z := 8.
Definition DETAIL_THRESHOLD : Z := 13.

(** ** The class [Quadrant] *)

#[local] Unset Elimination Schemes.
Inductive Quadrant : Type := mkQuadrant {
  bbox : Rect;
  depth : Z;
  is_leaf : bool;
  children : list (option Quadrant);
  color : Vec3b;
  detail : R
}.
#[local] Set Elimination Schemes.

Definition set_is_leaf (q : Quadrant) (b : bool) : Quadrant :=
  mkQuadrant (bbox q) (depth q) b (children q) (color q) (detail q).

Definition set_children (q : Quadrant) (cs : list (option Quadrant))
  : Quadrant :=
  mkQuadrant (bbox q) (depth q) (is_leaf q) cs (color q) (detail q).

(** [v[i] = a] on a [std::vector]; the program only writes the indices
    0..3 of a vector of size 4, an index out of range leaves the list
    as it is. *)
Fixpoint vec_set {A : Type} (v : list A) (i : nat) (a : A) : list A :=
  match v, i with
  | [], _ => []
  | _ :: t, O => a :: t
  | h :: t, S i' => h :: vec_set t i' a
  end.

(** The constructor [Quadrant(image, bbox, depth)]. *)
Definition Quadrant_new (image : Mat) (bbox : Rect) (depth : Z)
  : res Quadrant :=
  region <- Mat_roi image bbox ;;
  let detail := get_detail region in
  let color := average_color region in
  Ok (mkQuadrant bbox depth false (repeat None 4) color detail).

Definition split_region (this : Quadrant) (image : Mat) : res Quadrant :=
  let b := bbox this in
  let middle_x := int_add (x b) (int_half (width b)) in
  let middle_y := int_add (y b) (int_half (height b)) in
  c0 <- Quadrant_new image
          (mkRect (x b) (y b) (int_half (width b)) (int_half (height b)))
          (int_add (depth this) 1) ;;
  let this := set_children this (vec_set (children this) 0 (Some c0)) in
  c1 <- Quadrant_new image
          (mkRect middle_x (y b) (int_half (width b)) (int_half (height b)))
          (int_add (depth this) 1) ;;
  let this := set_children this (vec_set (children this) 1 (Some c1)) in
  c2 <- Quadrant_new image
          (mkRect (x b) middle_y (int_half (width b)) (int_half (height b)))
          (int_add (depth this) 1) ;;
  let this := set_children this (vec_set (children this) 2 (Some c2)) in
  c3 <- Quadrant_new image
          (mkRect middle_x middle_y (int_half (width b)) (int_half (height b)))
          (int_add (depth this) 1) ;;
  Ok (set_children this (vec_set (children this) 3 (Some c3))).

(** ** The class [QuadTree] *)

Record QuadTree : Type := mkQuadTree {
  root : option Quadrant;
  max_depth : Z
}.

(** The constructor [QuadTree(image)]. *)
Definition QuadTree_new (image : Mat) : res QuadTree :=
  r <- Quadrant_new image (mkRect 0 0 (cols image) (rows image)) 0 ;;
  Ok (mkQuadTree (Some r) 0).

(** [a < b] on [double]. *)
Definition Rltb (a b : R) : bool := if Rlt_dec a b then true else false.

(** A range-based [for] loop whose body updates the element it visits
    and a state [S]. *)
Fixpoint for_each {A S : Type} (body : S -> A -> res (A * S)) (st : S)
         (l : list A) : res (list A * S) :=
  match l with
  | [] => Ok ([], st)
  | a :: t =>
      '(a', st1) <- body st a ;;
      '(t', st2) <- for_each body st1 t ;;
      Ok (a' :: t', st2)
  end.

(** A range-based [for] loop whose body only updates a state [S]. *)
Fixpoint for_state {A S : Type} (body : S -> A -> res S) (st : S)
         (l : list A) : res S :=
  match l with
  | [] => Ok st
  | a :: t => st1 <- body st a ;; for_state body st1 t
  end.

(** [QuadTree::build(quad, image)].  The member [this->max_depth] is
    passed in and out; the node that [quad] points to is returned as
    [build] leaves it. *)
Fixpoint build (fuel : nat) (max_depth : Z) (quad : option Quadrant)
         (image : Mat) : res (Quadrant * Z) :=
  match fuel with
  | O => Fault OutOfFuel
  | S fuel' =>
      match quad with
      | None => Fault NullDeref
      | Some quad =>
          if (MAX_DEPTH <=? depth quad)
             || Rltb (detail quad) (IZR DETAIL_THRESHOLD)
          then
            let max_depth :=
              if max_depth <? depth quad then depth quad else max_depth in
            Ok (set_is_leaf quad true, max_depth)
          else
            quad <- split_region quad image ;;
            '(cs, max_depth) <-
              for_each (fun md child =>
                          '(c, md') <- build fuel' md child image ;;
                          Ok (Some c, md'))
                       max_depth (children quad) ;;
            Ok (set_children quad cs, max_depth)
      end
  end.

(** [cv::Scalar], of which only the first three components are used. *)
Definition Scalar : Type := (Z * Z * Z)%type.

(** [cv::FILLED]. *)
Definition FILLED : Z := -1.

(** A call [rectangle(image, rec, color, thickness)] of OpenCV.  The
    output image of the renderer is the black image together with the
    rectangle calls made on it, in order. *)
Inductive DrawOp : Type :=
| rectangle (rec : Rect) (color : Scalar) (thickness : Z).

Record Canvas : Type := mkCanvas {
  canvas_rows : Z;
  canvas_cols : Z;
  drawn : list DrawOp
}.

Definition draw (image : Canvas) (op : DrawOp) : Canvas :=
  mkCanvas (canvas_rows image) (canvas_cols image) (drawn image ++ [op]).

Definition color_scalar (c : Vec3b) : Scalar :=
  (uchar_val (ch0 c), uchar_val (ch1 c), uchar_val (ch2 c)).

(** [QuadTree::draw_quadrants(image, quad, depth, show_lines)]. *)
Fixpoint draw_quadrants (fuel : nat) (image : Canvas) (quad : option Quadrant)
         (depth : Z) (show_lines : bool) : res Canvas :=
  match fuel with
  | O => Fault OutOfFuel
  | S fuel' =>
      match quad with
      | None => Fault NullDeref
      | Some quad =>
          if (Z.b2z (is_leaf quad) =? depth) || is_leaf quad then
            let image :=
              draw image (rectangle (bbox quad) (color_scalar (color quad))
                                    FILLED) in
            Ok (if show_lines
                then draw image (rectangle (bbox quad) (0, 0, 0) 1)
                else image)
          else
            for_state (fun image child =>
                         match child with
                         | None =>
                             draw_quadrants fuel' image child depth show_lines
                         | Some _ => Ok image
                         end)
                      image (children quad)
      end
  end.

(** [Mat::zeros(rows, cols, CV_8UC3)]. *)
Definition Mat_zeros (rows cols : Z) : Canvas := mkCanvas rows cols [].

(** [QuadTree::create_image(depth, show_lines)]. *)
Definition create_image (fuel : nat) (this : QuadTree) (depth : Z)
           (show_lines : bool) : res Canvas :=
  match root this with
  | None => Fault NullDeref
  | Some r =>
      let image := Mat_zeros (height (bbox r)) (width (bbox r)) in
      draw_quadrants fuel image (root this) depth show_lines
  end.

(** What a [delete] expression of the teardown is applied to: a node, or
    the address of a slot of a [children] vector (recorded with the
    pointer the slot holds). *)
Inductive Deleted : Type :=
| DeleteNode (q : Quadrant)
| DeleteSlot (child : option Quadrant).

(** [QuadTree::free_quadtree(quad)], returning the [delete] expressions
    it evaluated, in order. *)
Fixpoint free_quadtree (fuel : nat) (freed : list Deleted)
         (quad : option Quadrant) : res (list Deleted) :=
  match fuel with
  | O => Fault OutOfFuel
  | S fuel' =>
      match quad with
      | None => Fault NullDeref
      | Some quad =>
          for_state (fun freed child =>
                       match child with
                       | None =>
                           freed <- free_quadtree fuel' freed child ;;
                           Ok (freed ++ [DeleteSlot child])
                       | Some _ => Ok freed
                       end)
                    freed (children quad)
      end
  end.

(** The destructor [~QuadTree()]. *)
Definition QuadTree_delete (fuel : nat) (this : QuadTree)
  : res (list Deleted) :=
  free_quadtree fuel [] (root this).

(** A tree is built by constructing the [QuadTree] over the image and
    calling [build] on its root. *)
Definition build_tree (fuel : nat) (image : Mat) : res QuadTree :=
  t <- QuadTree_new image ;;
  '(r, md) <- build fuel (max_depth t) (root t) image ;;
  Ok (mkQuadTree (Some r) md).

(** ** Vocabulary of the specification *)

(** All the nodes of a tree, the root first, following the non-null
    child pointers. *)
Fixpoint nodes (q : Quadrant) : list Quadrant :=
  q :: flat_map (fun c => match c with
                          | Some c' => nodes c'
                          | None => []
                          end) (children q).

Definition leaves (q : Quadrant) : list Quadrant :=
  filter is_leaf (nodes q).

(** The pixel (px, py) lies in the rectangle. *)
Definition inside (r : Rect) (px py : Z) : Prop :=
  x r <= px < x r + width r /\ y r <= py < y r + height r.

(** The rectangle lies in the image (what [Mat_roi] asserts). *)
Definition rect_in (image : Mat) (r : Rect) : Prop :=
  0 <= x r /\ 0 <= width r /\ x r + width r <= cols image /\
  0 <= y r /\ 0 <= height r /\ y r + height r <= rows image.

(** The size of an image is a pair of non-negative [int]s. *)
Definition wf_image (image : Mat) : Prop :=
  0 <= rows image <= INT_MAX /\ 0 <= cols image <= INT_MAX.

(** The four quadrants of a rectangle, in the order of [split_region]:
    top-left, top-right, bottom-left, bottom-right. *)
Definition quadrant_rect (b : Rect) (k : nat) : Rect :=
  match k with
  | 0%nat => mkRect (x b) (y b) (width b / 2) (height b / 2)
  | 1%nat => mkRect (x b + width b / 2) (y b) (width b / 2) (height b / 2)
  | 2%nat => mkRect (x b) (y b + height b / 2) (width b / 2) (height b / 2)
  | _ => mkRect (x b + width b / 2) (y b + height b / 2)
                (width b / 2) (height b / 2)
  end.

(** The stop condition of [build]. *)
Definition stops (q : Quadrant) : Prop :=
  MAX_DEPTH <= depth q \/ (detail q < IZR DETAIL_THRESHOLD)%R.

(** The shape of the subtree that [build] leaves below a node that the
    constructor made over [image]. *)
Inductive Built (image : Mat) : Quadrant -> Prop :=
| Built_leaf (q q0 : Quadrant) :
    Quadrant_new image (bbox q) (depth q) = Ok q0 ->
    q = set_is_leaf q0 true ->
    stops q ->
    Built image q
| Built_split (q q0 c0 c1 c2 c3 : Quadrant) :
    Quadrant_new image (bbox q) (depth q) = Ok q0 ->
    q = set_children q0 [Some c0; Some c1; Some c2; Some c3] ->
    ~ stops q ->
    bbox c0 = quadrant_rect (bbox q) 0 ->
    bbox c1 = quadrant_rect (bbox q) 1 ->
    bbox c2 = quadrant_rect (bbox q) 2 ->
    bbox c3 = quadrant_rect (bbox q) 3 ->
    depth c0 = depth q + 1 ->
    depth c1 = depth q + 1 ->
    depth c2 = depth q + 1 ->
    depth c3 = depth q + 1 ->
    Built image c0 -> Built image c1 -> Built image c2 -> Built image c3 ->
    Built image q.

(** [m] is the greatest element of the list [l]. *)
Definition is_max (m : Z) (l : list Z) : Prop :=
  In m l /\ forall z, In z l -> z <= m.

(** Sums over the index range i, i+1, ..., i+n-1. *)
Fixpoint Zsigma (f : Z -> Z) (i : Z) (n : nat) : Z :=
  match n with
  | O => 0
  | S n' => f i + Zsigma f (i + 1) n'
  end.

Fixpoint Rsigma (f : Z -> R) (i : Z) (n : nat) : R :=
  match n with
  | O => 0%R
  | S n' => (f i + Rsigma f (i + 1) n')%R
  end.

(** The total bin count of the first [size] bins. *)
Definition hist_total (count : list Z) (size : Z) : Z :=
  Zsigma (hist_at count) 0 (Z.to_nat size).

(** The population standard deviation of a 256-bin histogram, in the
    words of the specification: the mean bin index weighted by the bin
    counts, then [sqrt (sum_i count[i] * (i - mean)^2 / sum_i count[i])];
    0 for a histogram whose total count is 0. *)
Definition spec_mean (count : list Z) : R :=
  (Rsigma (fun i => IZR i * IZR (hist_at count i)) 0 256
   / Rsigma (fun i => IZR (hist_at count i)) 0 256)%R.

Definition spec_stddev (count : list Z) : R :=
  if hist_total count 256 =? 0 then 0%R
  else
    sqrt (Rsigma (fun i => IZR (hist_at count i)
                           * (IZR i - spec_mean count) ^ 2) 0 256
          / Rsigma (fun i => IZR (hist_at count i)) 0 256)%R.

(** The 256-bin histogram of channel [k] of a region. *)
Definition channel_hist (k : nat) (image : Mat) : list Z :=
  calcHist (map (channel k) (Mat_pixels image)) 256.

(** The same histogram as [get_detail] hands it to [weighted_average]. *)
Definition channel_buffer (k : nat) (image : Mat) : list Z :=
  as_int_buffer (channel_hist k image).

(** A histogram whose sums stay inside [int]: non-negative counts, and
    a total count that leaves room for the products [i * hist[i]]. *)
Definition hist_ok (hist : list Z) : Prop :=
  (forall j, 0 <= hist_at hist j) /\ 255 * hist_total hist 256 <= INT_MAX.

Definition hist_okb (hist : list Z) : bool :=
  forallb (Z.leb 0) hist && (255 * hist_total hist 256 <=? INT_MAX).


(** [t] is the tree built over [image] and [r] is its root node: the
    constructor followed by [build] on the root returns [t], whatever
    fuel at least 9 (one level more than [MAX_DEPTH]) is given. *)
Definition builds (image : Mat) (t : QuadTree) (r : Quadrant) : Prop :=
  (forall fuel, (9 <= fuel)%nat -> build_tree fuel image = Ok t) /\
  root t = Some r.

(** ** Sample images *)

Definition black : Vec3b := mkVec3b x00 x00 x00.
Definition white : Vec3b := mkVec3b xff xff xff.

(** 2 x 2, left column black, right column white. *)
Definition img_2x2 : Mat :=
  mkMat 2 2 (fun _ j => if j =? 0 then black else white).

(** One column, two rows: a black pixel above a white one. *)
Definition img_1x2 : Mat :=
  mkMat 2 1 (fun i _ => if i =? 0 then black else white).

(** One row, two pixels that differ in channel 0 only. *)
Definition img_ch0 : Mat :=
  mkMat 1 2 (fun _ j => if j =? 0 then black else mkVec3b xff x00 x00).

(** A single black pixel. *)
Definition img_1x1 : Mat := mkMat 1 1 (fun _ _ => black).

(** A dark grey, 14 in every channel. *)
Definition grey14 : Vec3b := mkVec3b x0e x0e x0e.

(** 2 x 2, every pixel [grey14]. *)
Definition img_grey_2x2 : Mat := mkMat 2 2 (fun _ _ => grey14).

(** A single [grey14] pixel. *)
Definition img_grey_1x1 : Mat := mkMat 1 1 (fun _ _ => grey14).

(** A uniformly white image of 4096 x 4096 pixels. *)
Definition img_white_4096 : Mat := mkMat 4096 4096 (fun _ _ => white).

(** One column, two rows: a white pixel above a black one. *)
Definition img_1x2_flip : Mat :=
  mkMat 2 1 (fun i _ => if i =? 0 then white else black).

(** An image without pixels. *)
Definition img_empty : Mat := mkMat 0 0 (fun _ _ => black).

(** * Properties *)

(** The facts about the halves of the sides of a rectangle that linear
    arithmetic needs. *)
Ltac halving b :=
  pose proof (Z.div_pos (width b) 2);
  pose proof (Z.div_mod (width b) 2);
  pose proof (Z.mod_pos_bound (width b) 2);
  pose proof (Z.div_pos (height b) 2);
  pose proof (Z.div_mod (height b) 2);
  pose proof (Z.mod_pos_bound (height b) 2).

(** ** Machine integers *)

Lemma wrap_small (z : Z) : in_int z -> wrap z = z.
Proof.
  unfold in_int, INT_MIN, INT_MAX, wrap. intros Hz.
  rewrite Z.mod_small; lia.
Qed.

Lemma wrap_add_l (a b : Z) : wrap (wrap a + b) = wrap (a + b).
Proof.
  unfold wrap.
  replace ((a + 2 ^ 31) mod 2 ^ 32 - 2 ^ 31 + b + 2 ^ 31)
    with ((a + 2 ^ 31) mod 2 ^ 32 + b) by lia.
  rewrite Zplus_mod_idemp_l. f_equal. f_equal. lia.
Qed.

Lemma int_half_div (a : Z) : 0 <= a -> int_half a = a / 2.
Proof. intros Ha. unfold int_half. apply Z.quot_div_nonneg; lia. Qed.

Lemma Rltb_true (a b : R) : (a < b)%R -> Rltb a b = true.
Proof. intros H. unfold Rltb. destruct (Rlt_dec a b); [reflexivity | contradiction]. Qed.


(** ** Sums over index ranges *)

Lemma Zsigma_ext (f g : Z -> Z) (n : nat) : forall i,
  (forall j, i <= j < i + Z.of_nat n -> f j = g j) ->
  Zsigma f i n = Zsigma g i n.
Proof.
  induction n as [|n IH]; intros i H; simpl; [reflexivity|].
  rewrite H by lia. rewrite (IH (i + 1)); [reflexivity|].
  intros j Hj. apply H. lia.
Qed.

Lemma Zsigma_add (f g : Z -> Z) (n : nat) : forall i,
  Zsigma (fun j => f j + g j) i n = Zsigma f i n + Zsigma g i n.
Proof. induction n as [|n IH]; intros i; simpl; [reflexivity|]. rewrite IH. lia. Qed.

Lemma Zsigma_zero (n : nat) : forall i, Zsigma (fun _ => 0) i n = 0.
Proof. induction n as [|n IH]; intros i; simpl; [reflexivity|]. apply IH. Qed.

Lemma Zsigma_nonneg (f : Z -> Z) (n : nat) : forall i,
  (forall j, 0 <= f j) -> 0 <= Zsigma f i n.
Proof.
  induction n as [|n IH]; intros i H; simpl; [lia|].
  specialize (IH (i + 1) H). specialize (H i). lia.
Qed.

(** The sum of an indicator over a range that does not, or does, hold
    the index. *)
Lemma Zsigma_indicator_out (f : Z -> Z) (v : Z) (n : nat) : forall i,
  v < i ->
  Zsigma (fun j => if j =? v then f j else 0) i n = 0.
Proof.
  induction n as [|n IH]; intros i H; simpl; [reflexivity|].
  destruct (Z.eqb_spec i v); [lia|]. rewrite IH; lia.
Qed.

Lemma Zsigma_indicator_in (f : Z -> Z) (v : Z) (n : nat) : forall i,
  i <= v < i + Z.of_nat n ->
  Zsigma (fun j => if j =? v then f j else 0) i n = f v.
Proof.
  induction n as [|n IH]; intros i H; simpl; [lia|].
  destruct (Z.eqb_spec i v) as [->|Hne].
  - rewrite Zsigma_indicator_out; lia.
  - rewrite IH; lia.
Qed.

Lemma Rsigma_IZR (f : Z -> Z) (n : nat) : forall i,
  Rsigma (fun j => IZR (f j)) i n = IZR (Zsigma f i n).
Proof.
  induction n as [|n IH]; intros i; simpl; [reflexivity|].
  rewrite IH, plus_IZR. reflexivity.
Qed.

Lemma Rsigma_ext (f g : Z -> R) (n : nat) : forall i,
  (forall j, f j = g j) -> Rsigma f i n = Rsigma g i n.
Proof.
  induction n as [|n IH]; intros i H; simpl; [reflexivity|].
  rewrite H, (IH (i + 1) H). reflexivity.
Qed.

(** The second moment around [v], expanded into the three raw moments. *)
Lemma Rsigma_moments (h : Z -> Z) (v : R) (n : nat) : forall i,
  Rsigma (fun j => IZR (h j) * (IZR j - v) * (IZR j - v))%R i n
  = (IZR (Zsigma (fun j => j * j * h j)%Z i n)
     - 2 * v * IZR (Zsigma (fun j => j * h j)%Z i n)
     + v * v * IZR (Zsigma h i n))%R.
Proof.
  induction n as [|n IH]; intros i; simpl; [lra|].
  rewrite IH. rewrite !plus_IZR, !mult_IZR. ring.
Qed.

(** ** The loops of [weighted_average] *)

(** The total wraps around like any [int] sum. *)
Lemma wa_sum_total (hist : list Z) (n : nat) : forall i total value,
  fst (wa_sum n i hist total value)
  = wrap (total + Zsigma (hist_at hist) i n) \/
  (n = O /\ fst (wa_sum n i hist total value) = total).
Proof.
  induction n as [|n IH]; intros i total value; simpl.
  - right. auto.
  - left. destruct (IH (i + 1) (int_add total (hist_at hist i))
                       (value + IZR (int_mul i (hist_at hist i)))%R)
      as [-> | [-> ->]].
    + unfold int_add. rewrite wrap_add_l. f_equal. lia.
    + simpl. unfold int_add. f_equal. lia.
Qed.

(** Without overflow the first loop computes the exact sums. *)
Lemma wa_sum_exact (hist : list Z) (n : nat) : forall i total value,
  (forall j, 0 <= hist_at hist j) ->
  0 <= i -> i + Z.of_nat n <= 256 -> 0 <= total ->
  255 * (total + Zsigma (hist_at hist) i n) <= INT_MAX ->
  wa_sum n i hist total value
  = (total + Zsigma (hist_at hist) i n,
     (value + IZR (Zsigma (fun j => j * hist_at hist j)%Z i n))%R).
Proof.
  induction n as [|n IH]; intros i total value Hpos Hi Hn Ht Hb;
    cbn [wa_sum Zsigma] in *.
  - f_equal; [lia | lra].
  - pose proof (Hpos i) as Hhi.
    pose proof (Zsigma_nonneg (hist_at hist) n (i + 1) Hpos) as Hrest.
    assert (Hadd : int_add total (hist_at hist i) = total + hist_at hist i).
    { apply wrap_small. unfold in_int, INT_MIN, INT_MAX in *. lia. }
    assert (Hmul : int_mul i (hist_at hist i) = i * hist_at hist i).
    { apply wrap_small. unfold in_int, INT_MIN, INT_MAX in *. nia. }
    rewrite Hadd, Hmul.
    rewrite (IH (i + 1) _ _ Hpos) by lia.
    f_equal; [lia|]. rewrite !plus_IZR. lra.
Qed.

Lemma wa_err_sigma (hist : list Z) (value : R) (n : nat) : forall i error,
  wa_err n i hist value error
  = (error + Rsigma (fun j => IZR (hist_at hist j)
                              * (IZR j - value) * (IZR j - value)) i n)%R.
Proof.
  induction n as [|n IH]; intros i error; simpl; [lra|].
  rewrite IH. lra.
Qed.

(** ** [weighted_average] and the standard deviation of the specification *)

Lemma hist_okb_ok (hist : list Z) : hist_okb hist = true -> hist_ok hist.
Proof.
  unfold hist_okb, hist_ok. intros H.
  apply andb_prop in H. destruct H as [Hall Hb]. split; [|lia].
  intros j. unfold hist_at.
  rewrite forallb_forall in Hall.
  destruct (nth_in_or_default (Z.to_nat j) hist 0) as [Hin | ->]; [|lia].
  specialize (Hall _ Hin). lia.
Qed.

Lemma weighted_average_moments (hist : list Z) (S0 S1 S2 : Z) :
  hist_ok hist ->
  hist_total hist 256 = S0 ->
  Zsigma (fun j => j * hist_at hist j) 0 256 = S1 ->
  Zsigma (fun j => j * j * hist_at hist j) 0 256 = S2 ->
  0 < S0 ->
  weighted_average hist 256
  = sqrt (IZR (S2 * S0 - S1 * S1) / IZR (S0 * S0)).
Proof.
  intros [Hpos Hb] H0 H1 H2 HS.
  unfold weighted_average, hist_total in *.
  replace (Z.to_nat 256) with 256%nat in * by reflexivity.
  rewrite wa_sum_exact by (auto; lia).
  rewrite Z.add_0_l, H0, H1.
  destruct (Z.ltb_spec 0 S0) as [_|]; [|lia].
  rewrite wa_err_sigma, Rsigma_moments, H0, H1, H2.
  f_equal. rewrite minus_IZR, !mult_IZR.
  assert (IZR S0 <> 0%R) by (apply not_0_IZR; lia).
  field. assumption.
Qed.

(** Refinement: on a histogram whose sums stay inside [int],
    [weighted_average] is the standard deviation of the specification. *)
Lemma weighted_average_spec_stddev (hist : list Z) :
  hist_ok hist -> weighted_average hist 256 = spec_stddev hist.
Proof.
  intros [Hpos Hb].
  unfold weighted_average, spec_stddev, spec_mean, hist_total in *.
  replace (Z.to_nat 256) with 256%nat in * by reflexivity.
  rewrite wa_sum_exact by (auto; lia).
  rewrite Z.add_0_l.
  pose proof (Zsigma_nonneg (hist_at hist) 256 0 Hpos) as Hnn.
  destruct (Z.ltb_spec 0 (Zsigma (hist_at hist) 0 256)) as [Hlt|Hle];
    destruct (Z.eqb_spec (Zsigma (hist_at hist) 0 256) 0) as [He|Hne];
    try lia; [|reflexivity].
  rewrite wa_err_sigma. rewrite !Rsigma_IZR.
  rewrite (Rsigma_ext (fun i => IZR i * IZR (hist_at hist i))%R
                      (fun i => IZR (i * hist_at hist i)))
    by (intros j; rewrite mult_IZR; reflexivity).
  rewrite Rsigma_IZR. rewrite !Rplus_0_l.
  f_equal. f_equal. apply Rsigma_ext. intros j. ring.
Qed.

(** The standard deviation of the specification from the raw moments. *)
Lemma spec_stddev_moments (hist : list Z) (S0 S1 S2 : Z) :
  hist_total hist 256 = S0 ->
  Zsigma (fun j => j * hist_at hist j) 0 256 = S1 ->
  Zsigma (fun j => j * j * hist_at hist j) 0 256 = S2 ->
  S0 <> 0 ->
  spec_stddev hist = sqrt (IZR (S2 * S0 - S1 * S1) / IZR (S0 * S0)).
Proof.
  intros H0 H1 H2 HS. unfold spec_stddev, spec_mean.
  unfold hist_total in *. replace (Z.to_nat 256) with 256%nat in * by reflexivity.
  rewrite H0. destruct (Z.eqb_spec S0 0) as [|_]; [contradiction|].
  rewrite (Rsigma_ext (fun i => IZR i * IZR (hist_at hist i))%R
                      (fun i => IZR (i * hist_at hist i)))
    by (intros j; rewrite mult_IZR; reflexivity).
  rewrite !Rsigma_IZR, H0, H1.
  rewrite (Rsigma_ext
             (fun i => IZR (hist_at hist i) * (IZR i - IZR S1 / IZR S0) ^ 2)%R
             (fun i => IZR (hist_at hist i) * (IZR i - IZR S1 / IZR S0)
                       * (IZR i - IZR S1 / IZR S0))%R)
    by (intros j; ring).
  rewrite Rsigma_moments, H0, H1, H2.
  f_equal. rewrite minus_IZR, !mult_IZR.
  assert (IZR S0 <> 0%R) by (apply not_0_IZR; exact HS).
  field. assumption.
Qed.

(** The [double value] of the first loop, overflow or not. *)
Lemma wa_sum_value (hist : list Z) (n : nat) : forall i total value,
  snd (wa_sum n i hist total value)
  = (value + IZR (Zsigma (fun j => int_mul j (hist_at hist j)) i n))%R.
Proof.
  induction n as [|n IH]; intros i total value; simpl; [lra|].
  rewrite IH, plus_IZR. lra.
Qed.

(** ** Histograms of regions *)

Lemma Zrange_length (n : Z) : length (Zrange n) = Z.to_nat n.
Proof. unfold Zrange. rewrite length_map, length_seq. reflexivity. Qed.

Lemma hist_at_map_Zrange (f : Z -> Z) (n j : Z) :
  0 <= j < n -> hist_at (map f (Zrange n)) j = f j.
Proof.
  intros Hj. unfold hist_at, Zrange. rewrite map_map.
  rewrite (nth_indep _ 0 (f (Z.of_nat 0))) by (rewrite length_map, length_seq; lia).
  rewrite (map_nth (fun k => f (Z.of_nat k))).
  rewrite seq_nth by lia. f_equal. lia.
Qed.

Lemma hist_at_calcHist (plane : list Z) (size j : Z) :
  0 <= j < size ->
  hist_at (calcHist plane size) j
  = Z.of_nat (length (filter (Z.eqb j) plane)).
Proof.
  intros Hj. unfold calcHist.
  apply (hist_at_map_Zrange
           (fun i => Z.of_nat (length (filter (Z.eqb i) plane))) size j Hj).
Qed.

Lemma hist_at_calcHist_nonneg (plane : list Z) (size j : Z) :
  0 <= hist_at (calcHist plane size) j.
Proof.
  unfold hist_at, calcHist.
  destruct (nth_in_or_default (Z.to_nat j)
              (map (fun i => Z.of_nat (length (filter (Z.eqb i) plane)))
                   (Zrange size)) 0) as [Hin | ->]; [|lia].
  apply in_map_iff in Hin. destruct Hin as [k [<- _]]. lia.
Qed.

(** Every pixel value falls in exactly one of the 256 bins. *)
Lemma calcHist_total (plane : list Z) :
  Forall (fun v => 0 <= v < 256) plane ->
  hist_total (calcHist plane 256) 256 = Z.of_nat (length plane).
Proof.
  intros Hall. unfold hist_total.
  replace (Z.to_nat 256) with 256%nat by reflexivity.
  rewrite (Zsigma_ext _ (fun j => Z.of_nat (length (filter (Z.eqb j) plane))))
    by (intros j Hj; apply hist_at_calcHist; lia).
  induction Hall as [|v l Hv Hl IH]; [apply Zsigma_zero|].
  rewrite (Zsigma_ext _ (fun j => (if j =? v then (fun _ => 1) j else 0)
                                  + Z.of_nat (length (filter (Z.eqb j) l)))).
  - rewrite Zsigma_add, IH, Zsigma_indicator_in by lia.
    simpl length. lia.
  - intros j _. simpl filter. destruct (Z.eqb_spec j v); simpl length; lia.
Qed.

Lemma uchar_val_range (b : uchar) : 0 <= uchar_val b < 256.
Proof.
  unfold uchar_val. pose proof (Byte.to_N_bounded b). lia.
Qed.

Lemma channel_range (k : nat) (p : Vec3b) : 0 <= channel k p < 256.
Proof.
  destruct k as [|[|k]]; simpl; apply uchar_val_range.
Qed.

Lemma Mat_pixels_length (m : Mat) :
  Z.of_nat (length (Mat_pixels m)) = Z.max 0 (rows m) * Z.max 0 (cols m).
Proof.
  unfold Mat_pixels.
  assert (H : forall l : list Z,
             length (flat_map (fun i => map (fun j => at_ m i j)
                                            (Zrange (cols m))) l)
             = (length l * Z.to_nat (cols m))%nat).
  { induction l as [|a l IH]; simpl; [reflexivity|].
    rewrite length_app, IH, length_map, Zrange_length. reflexivity. }
  rewrite H, Zrange_length. lia.
Qed.

Lemma channel_hist_ok (k : nat) (image : Mat) :
  255 * (Z.max 0 (rows image) * Z.max 0 (cols image)) <= INT_MAX ->
  hist_ok (channel_hist k image).
Proof.
  intros Hb. unfold hist_ok, channel_hist. split.
  - intros j. apply hist_at_calcHist_nonneg.
  - rewrite calcHist_total.
    + rewrite length_map, Mat_pixels_length. exact Hb.
    + apply Forall_forall. intros v Hv. apply in_map_iff in Hv.
      destruct Hv as [p [<- _]]. apply channel_range.
Qed.

Lemma get_detail_channels (image : Mat) :
  get_detail image
  = (weighted_average (channel_buffer 2 image) 256 * 0.2989
     + weighted_average (channel_buffer 1 image) 256 * 0.5870
     + weighted_average (channel_buffer 0 image) 256 * 0.1140)%R.
Proof. reflexivity. Qed.

(** The detail of a region is a function of the list of its pixels. *)
Lemma get_detail_pixels (a b : Mat) :
  Mat_pixels a = Mat_pixels b -> get_detail a = get_detail b.
Proof.
  intros H. rewrite !get_detail_channels.
  unfold channel_buffer, channel_hist. rewrite H. reflexivity.
Qed.

(** ** Values of the detail score *)

(** A total count of zero (or less): the fallback branch. *)
Lemma weighted_average_zero_total (hist : list Z) (size : Z) :
  hist_total hist size = 0 -> weighted_average hist size = 0%R.
Proof.
  unfold hist_total, weighted_average. intros H.
  destruct (wa_sum (Z.to_nat size) 0 hist 0 0%R) as [total value] eqn:E.
  assert (Ht : total = 0).
  { pose proof (wa_sum_total hist (Z.to_nat size) 0 0 0%R) as Hs.
    rewrite E in Hs. simpl fst in Hs.
    destruct Hs as [-> | [_ ->]]; [|reflexivity].
    rewrite H. reflexivity. }
  rewrite Ht. reflexivity.
Qed.

Lemma get_detail_no_pixels (image : Mat) :
  Mat_pixels image = [] -> get_detail image = 0%R.
Proof.
  intros H. rewrite get_detail_channels.
  assert (Hk : forall k, weighted_average (channel_buffer k image) 256 = 0%R).
  { intros k. apply weighted_average_zero_total.
    unfold channel_buffer, channel_hist. rewrite H. reflexivity. }
  rewrite !Hk. lra.
Qed.

Lemma Mat_pixels_empty (image : Mat) :
  rows image <= 0 \/ cols image <= 0 -> Mat_pixels image = [].
Proof.
  intros H.
  assert (Hl : Z.of_nat (length (Mat_pixels image)) = 0).
  { rewrite Mat_pixels_length. lia. }
  destruct (Mat_pixels image); [reflexivity | simpl in Hl; lia].
Qed.

(** [weighted_average] on 256 bins, whatever the buffer holds: the
    [int] total and every product [i * hist[i]] wrap around, the sums
    of [double]s are exact. *)
Lemma weighted_average_wrapped (hist : list Z) (T V S0 S1 S2 : Z) :
  wrap (Zsigma (hist_at hist) 0 256) = T ->
  Zsigma (fun j => int_mul j (hist_at hist j)) 0 256 = V ->
  Zsigma (hist_at hist) 0 256 = S0 ->
  Zsigma (fun j => j * hist_at hist j) 0 256 = S1 ->
  Zsigma (fun j => j * j * hist_at hist j) 0 256 = S2 ->
  0 < T ->
  weighted_average hist 256
  = sqrt (IZR (S2 * T * T - 2 * V * S1 * T + V * V * S0) / IZR (T * T * T)).
Proof.
  intros HT HV H0 H1 H2 Hpos. unfold weighted_average.
  replace (Z.to_nat 256) with 256%nat by reflexivity.
  destruct (wa_sum 256 0 hist 0 0%R) as [total value] eqn:E.
  assert (Ht : total = T).
  { pose proof (wa_sum_total hist 256 0 0 0%R) as Hs.
    rewrite E in Hs. cbn [fst] in Hs.
    destruct Hs as [-> | [Hn _]]; [|discriminate].
    rewrite Z.add_0_l. exact HT. }
  assert (Hv : value = IZR V).
  { pose proof (wa_sum_value hist 256 0 0 0%R) as Hs.
    rewrite E in Hs. cbn [snd] in Hs. rewrite Hs, HV. lra. }
  subst total value.
  destruct (Z.ltb_spec 0 T) as [_|]; [|lia].
  rewrite wa_err_sigma, Rsigma_moments, H0, H1, H2.
  f_equal. rewrite !plus_IZR, !minus_IZR, !mult_IZR.
  assert (IZR T <> 0%R) by (apply not_0_IZR; lia).
  field. assumption.
Qed.

Lemma weighted_average_wrapped_eq (hist : list Z) (T V S0 S1 S2 p q : Z) :
  wrap (Zsigma (hist_at hist) 0 256) = T ->
  Zsigma (fun j => int_mul j (hist_at hist j)) 0 256 = V ->
  Zsigma (hist_at hist) 0 256 = S0 ->
  Zsigma (fun j => j * hist_at hist j) 0 256 = S1 ->
  Zsigma (fun j => j * j * hist_at hist j) 0 256 = S2 ->
  0 < T -> 0 <= p -> 0 < q ->
  q * q * (S2 * T * T - 2 * V * S1 * T + V * V * S0) = p * p * (T * T * T) ->
  weighted_average hist 256 = (IZR p / IZR q)%R.
Proof.
  intros HT HV H0 H1 H2 Hpos Hp Hq Heq.
  rewrite (weighted_average_wrapped hist T V S0 S1 S2) by assumption.
  set (N := S2 * T * T - 2 * V * S1 * T + V * V * S0) in *.
  set (T3 := T * T * T) in *.
  assert (HT3 : IZR T3 <> 0%R) by (apply not_0_IZR; unfold T3; nia).
  assert (Hq' : IZR q <> 0%R) by (apply not_0_IZR; lia).
  apply (f_equal IZR) in Heq. rewrite !mult_IZR in Heq.
  replace (IZR N / IZR T3)%R with (IZR p / IZR q * (IZR p / IZR q))%R.
  - apply sqrt_square. apply Rmult_le_pos; [apply IZR_le; exact Hp|].
    left. apply Rinv_0_lt_compat, IZR_lt. exact Hq.
  - apply (Rmult_eq_reg_r (IZR q * IZR q * IZR T3)).
    + transitivity (IZR p * IZR p * IZR T3)%R; [field; assumption|].
      rewrite <- Heq. field. assumption.
    + repeat apply Rmult_integral_contrapositive_currified; assumption.
Qed.

Lemma weighted_average_wrapped_ge (hist : list Z) (T V S0 S1 S2 p q : Z) :
  wrap (Zsigma (hist_at hist) 0 256) = T ->
  Zsigma (fun j => int_mul j (hist_at hist j)) 0 256 = V ->
  Zsigma (hist_at hist) 0 256 = S0 ->
  Zsigma (fun j => j * hist_at hist j) 0 256 = S1 ->
  Zsigma (fun j => j * j * hist_at hist j) 0 256 = S2 ->
  0 < T -> 0 <= p -> 0 < q ->
  p * p * (T * T * T) <= q * q * (S2 * T * T - 2 * V * S1 * T + V * V * S0) ->
  (IZR p / IZR q <= weighted_average hist 256)%R.
Proof.
  intros HT HV H0 H1 H2 Hpos Hp Hq Hle.
  rewrite (weighted_average_wrapped hist T V S0 S1 S2) by assumption.
  set (N := S2 * T * T - 2 * V * S1 * T + V * V * S0) in *.
  set (T3 := T * T * T) in *.
  assert (HT3 : (0 < IZR T3)%R) by (apply IZR_lt; unfold T3; nia).
  assert (Hq' : (0 < IZR q)%R) by (apply IZR_lt; exact Hq).
  apply IZR_le in Hle. rewrite !mult_IZR in Hle.
  replace (IZR p / IZR q)%R with (sqrt (IZR p / IZR q * (IZR p / IZR q))).
  - apply sqrt_le_1_alt.
    apply (Rmult_le_reg_r (IZR q * IZR q * IZR T3)).
    + repeat apply Rmult_lt_0_compat; assumption.
    + replace (IZR p / IZR q * (IZR p / IZR q) * (IZR q * IZR q * IZR T3))%R
        with (IZR p * IZR p * IZR T3)%R by (field; lra).
      replace (IZR N / IZR T3 * (IZR q * IZR q * IZR T3))%R
        with (IZR q * IZR q * IZR N)%R by (field; lra).
      exact Hle.
  - apply sqrt_square. apply Rmult_le_pos; [apply IZR_le; exact Hp|].
    left. apply Rinv_0_lt_compat. exact Hq'.
Qed.

Lemma weighted_average_wrapped_le (hist : list Z) (T V S0 S1 S2 p q : Z) :
  wrap (Zsigma (hist_at hist) 0 256) = T ->
  Zsigma (fun j => int_mul j (hist_at hist j)) 0 256 = V ->
  Zsigma (hist_at hist) 0 256 = S0 ->
  Zsigma (fun j => j * hist_at hist j) 0 256 = S1 ->
  Zsigma (fun j => j * j * hist_at hist j) 0 256 = S2 ->
  0 < T -> 0 <= p -> 0 < q ->
  q * q * (S2 * T * T - 2 * V * S1 * T + V * V * S0) <= p * p * (T * T * T) ->
  (weighted_average hist 256 <= IZR p / IZR q)%R.
Proof.
  intros HT HV H0 H1 H2 Hpos Hp Hq Hle.
  rewrite (weighted_average_wrapped hist T V S0 S1 S2) by assumption.
  set (N := S2 * T * T - 2 * V * S1 * T + V * V * S0) in *.
  set (T3 := T * T * T) in *.
  assert (HT3 : (0 < IZR T3)%R) by (apply IZR_lt; unfold T3; nia).
  assert (Hq' : (0 < IZR q)%R) by (apply IZR_lt; exact Hq).
  apply IZR_le in Hle. rewrite !mult_IZR in Hle.
  replace (IZR p / IZR q)%R with (sqrt (IZR p / IZR q * (IZR p / IZR q))).
  - apply sqrt_le_1_alt.
    apply (Rmult_le_reg_r (IZR q * IZR q * IZR T3)).
    + repeat apply Rmult_lt_0_compat; assumption.
    + replace (IZR p / IZR q * (IZR p / IZR q) * (IZR q * IZR q * IZR T3))%R
        with (IZR p * IZR p * IZR T3)%R by (field; lra).
      replace (IZR N / IZR T3 * (IZR q * IZR q * IZR T3))%R
        with (IZR q * IZR q * IZR N)%R by (field; lra).
      exact Hle.
  - apply sqrt_square. apply Rmult_le_pos; [apply IZR_le; exact Hp|].
    left. apply Rinv_0_lt_compat. exact Hq'.
Qed.

(** Closes the side conditions of the three lemmas above on a closed
    buffer by evaluation. *)
Ltac evaluate_buffer := vm_compute; first [reflexivity | discriminate].

(** *** The sample images *)

(** Four grey14 pixels: the one count is 4, read as 129 * 2^23; the
    product 14 * hist[14] wraps to -242 * 2^23, the mean comes out as
    -242/129 and the deviation as 14 + 242/129. *)
Lemma get_detail_img_grey_2x2 :
  get_detail img_grey_2x2 = (2048 / 129 * 0.9999)%R.
Proof.
  rewrite get_detail_channels.
  assert (H : forall k, (k < 3)%nat ->
                weighted_average (channel_buffer k img_grey_2x2) 256
                = (IZR 2048 / IZR 129)%R).
  { intros k Hk.
    destruct k as [|[|[|k]]]; [| | | lia];
      eapply weighted_average_wrapped_eq; evaluate_buffer. }
  rewrite !H by lia. lra.
Qed.

(** One grey14 pixel: the count 1 is read as 127 * 2^23, the mean comes
    out as 242/127. *)
Lemma get_detail_img_grey_1x1 :
  get_detail img_grey_1x1 = (1536 / 127 * 0.9999)%R.
Proof.
  rewrite get_detail_channels.
  assert (H : forall k, (k < 3)%nat ->
                weighted_average (channel_buffer k img_grey_1x1) 256
                = (IZR 1536 / IZR 127)%R).
  { intros k Hk.
    destruct k as [|[|[|k]]]; [| | | lia];
      eapply weighted_average_wrapped_eq; evaluate_buffer. }
  rewrite !H by lia. lra.
Qed.

Lemma get_detail_img_1x1 : get_detail img_1x1 = 0%R.
Proof.
  rewrite get_detail_channels.
  assert (H : forall k, (k < 3)%nat ->
                weighted_average (channel_buffer k img_1x1) 256
                = (IZR 0 / IZR 1)%R).
  { intros k Hk.
    destruct k as [|[|[|k]]]; [| | | lia];
      eapply weighted_average_wrapped_eq; evaluate_buffer. }
  rewrite !H by lia. lra.
Qed.


(** ** The constructor and [split_region] *)

Lemma Mat_roi_rect_in (image : Mat) (r : Rect) (m : Mat) :
  Mat_roi image r = Ok m ->
  rect_in image r /\ rows m = height r /\ cols m = width r.
Proof.
  unfold Mat_roi, rect_in. intros H.
  destruct ((0 <=? x r) && (0 <=? width r) && (x r + width r <=? cols image)
            && (0 <=? y r) && (0 <=? height r)
            && (y r + height r <=? rows image)) eqn:E; [|discriminate].
  inversion H; subst; clear H. simpl.
  repeat (apply andb_prop in E; destruct E as [E ?]). lia.
Qed.

Lemma Mat_roi_total (image : Mat) (r : Rect) :
  rect_in image r -> exists m, Mat_roi image r = Ok m.
Proof.
  unfold Mat_roi, rect_in. intros H.
  replace ((0 <=? x r) && (0 <=? width r) && (x r + width r <=? cols image)
           && (0 <=? y r) && (0 <=? height r)
           && (y r + height r <=? rows image)) with true.
  - eexists. reflexivity.
  - symmetry. repeat (apply andb_true_intro; split); lia.
Qed.

(** What the constructor establishes. *)
Lemma Quadrant_new_inv (image : Mat) (b : Rect) (d : Z) (q : Quadrant) :
  Quadrant_new image b d = Ok q ->
  exists region,
    Mat_roi image b = Ok region /\
    q = mkQuadrant b d false [None; None; None; None]
                   (average_color region) (get_detail region).
Proof.
  unfold Quadrant_new. intros H.
  destruct (Mat_roi image b) as [region|e] eqn:E; [|discriminate].
  exists region. split; [reflexivity|].
  cbn [bind] in H. inversion H. reflexivity.
Qed.

Lemma Quadrant_new_total (image : Mat) (b : Rect) (d : Z) :
  rect_in image b ->
  exists q, Quadrant_new image b d = Ok q /\ bbox q = b /\ depth q = d.
Proof.
  intros H. destruct (Mat_roi_total image b H) as [m Hm].
  unfold Quadrant_new. rewrite Hm. cbn [bind].
  eexists. split; [reflexivity|]. split; reflexivity.
Qed.

Lemma quadrant_rect_in (image : Mat) (b : Rect) (k : nat) :
  rect_in image b -> rect_in image (quadrant_rect b k).
Proof.
  unfold rect_in. intros H.
  halving b.
  destruct k as [|[|[|k]]]; simpl; lia.
Qed.

(** On a node made by the constructor over a well-formed image,
    [split_region] installs the four quadrants, without overflow. *)
Lemma split_region_ok (image : Mat) (b : Rect) (d : Z) (q : Quadrant) :
  wf_image image ->
  Quadrant_new image b d = Ok q ->
  INT_MIN <= d < INT_MAX ->
  exists c0 c1 c2 c3,
    Quadrant_new image (quadrant_rect b 0) (d + 1) = Ok c0 /\
    Quadrant_new image (quadrant_rect b 1) (d + 1) = Ok c1 /\
    Quadrant_new image (quadrant_rect b 2) (d + 1) = Ok c2 /\
    Quadrant_new image (quadrant_rect b 3) (d + 1) = Ok c3 /\
    split_region q image
    = Ok (set_children q [Some c0; Some c1; Some c2; Some c3]).
Proof.
  intros [Hrows Hcols] Hq Hd.
  destruct (Quadrant_new_inv _ _ _ _ Hq) as [region [Hroi ->]].
  destruct (Mat_roi_rect_in _ _ _ Hroi) as [Hin _].
  destruct (Quadrant_new_total image _ (d + 1) (quadrant_rect_in image b 0 Hin))
    as [c0 [H0 _]].
  destruct (Quadrant_new_total image _ (d + 1) (quadrant_rect_in image b 1 Hin))
    as [c1 [H1 _]].
  destruct (Quadrant_new_total image _ (d + 1) (quadrant_rect_in image b 2 Hin))
    as [c2 [H2 _]].
  destruct (Quadrant_new_total image _ (d + 1) (quadrant_rect_in image b 3 Hin))
    as [c3 [H3 _]].
  exists c0, c1, c2, c3. repeat (split; [assumption|]).
  unfold rect_in in Hin.
  halving b.
  unfold split_region. cbn [bbox depth children set_children].
  rewrite !int_half_div by lia.
  unfold int_add.
  rewrite (wrap_small (d + 1)) by (unfold in_int; lia).
  rewrite (wrap_small (x b + width b / 2))
    by (unfold in_int, INT_MIN, INT_MAX in *; lia).
  rewrite (wrap_small (y b + height b / 2))
    by (unfold in_int, INT_MIN, INT_MAX in *; lia).
  unfold quadrant_rect in H0, H1, H2, H3.
  rewrite H0. cbn [bind]. rewrite H1. cbn [bind].
  rewrite H2. cbn [bind]. rewrite H3. cbn [bind].
  reflexivity.
Qed.

(** ** Trees *)

Lemma nodes_unfold (q : Quadrant) :
  nodes q = q :: flat_map (fun c => match c with
                                    | Some c' => nodes c'
                                    | None => []
                                    end) (children q).
Proof. destruct q; reflexivity. Qed.

Lemma nodes_self (q : Quadrant) : In q (nodes q).
Proof. rewrite nodes_unfold. left. reflexivity. Qed.

Lemma nodes_four (q c0 c1 c2 c3 : Quadrant) :
  children q = [Some c0; Some c1; Some c2; Some c3] ->
  nodes q = q :: nodes c0 ++ nodes c1 ++ nodes c2 ++ nodes c3.
Proof.
  intros H. rewrite nodes_unfold, H. cbn [flat_map].
  rewrite app_nil_r. reflexivity.
Qed.

Lemma nodes_no_children (q : Quadrant) :
  children q = [None; None; None; None] -> nodes q = [q].
Proof. intros H. rewrite nodes_unfold, H. reflexivity. Qed.

Lemma Rltb_true_inv (a b : R) : Rltb a b = true -> (a < b)%R.
Proof. unfold Rltb. destruct (Rlt_dec a b); [auto | discriminate]. Qed.

Lemma Rltb_false_inv (a b : R) : Rltb a b = false -> (b <= a)%R.
Proof. unfold Rltb. destruct (Rlt_dec a b); [discriminate | lra]. Qed.

Lemma is_max_chain (m m1 m2 : Z) (l1 l2 : list Z) :
  is_max m1 (m :: l1) -> is_max m2 (m1 :: l2) -> is_max m2 (m :: l1 ++ l2).
Proof.
  intros [Hin1 Hle1] [Hin2 Hle2]. split.
  - destruct Hin2 as [<- | Hin2].
    + destruct Hin1 as [<- | Hin1]; [left; reflexivity|].
      right. apply in_or_app. left. exact Hin1.
    + right. apply in_or_app. right. exact Hin2.
  - intros z [<- | Hz].
    + specialize (Hle1 m (or_introl eq_refl)).
      specialize (Hle2 m1 (or_introl eq_refl)). lia.
    + apply in_app_or in Hz. destruct Hz as [Hz | Hz].
      * specialize (Hle1 z (or_intror Hz)).
        specialize (Hle2 m1 (or_introl eq_refl)). lia.
      * apply Hle2. right. exact Hz.
Qed.

(** ** [build] *)

Lemma stop_decision (q : Quadrant) :
  ((MAX_DEPTH <=? depth q) || Rltb (detail q) (IZR DETAIL_THRESHOLD) = true
   /\ stops q)
  \/ ((MAX_DEPTH <=? depth q) || Rltb (detail q) (IZR DETAIL_THRESHOLD) = false
      /\ ~ stops q).
Proof.
  unfold stops.
  destruct (Z.leb_spec MAX_DEPTH (depth q)) as [Hd|Hd].
  - left. split; [reflexivity | left; exact Hd].
  - destruct (Rltb (detail q) (IZR DETAIL_THRESHOLD)) eqn:E.
    + left. split; [reflexivity | right; apply Rltb_true_inv; exact E].
    + right. split; [reflexivity|].
      apply Rltb_false_inv in E. intros [H|H]; [lia | lra].
Qed.

(** [build] on a node fresh from the constructor: with fuel above the
    number of levels left below the node it returns, the same result for
    every such fuel; the result is a [Built] tree over the same bbox and
    depth, and the new [max_depth] is the greatest of the old one and
    the depths of the leaves made. *)
Lemma build_spec (image : Mat) (Hwf : wf_image image) (k : nat) :
  forall (b : Rect) (d : Z) (q : Quadrant) (md : Z),
    Quadrant_new image b d = Ok q ->
    INT_MIN <= d ->
    (Z.to_nat (MAX_DEPTH - d) <= k)%nat ->
    exists q' md',
      (forall fuel, (k < fuel)%nat ->
                    build fuel md (Some q) image = Ok (q', md')) /\
      Built image q' /\ bbox q' = b /\ depth q' = d /\
      is_max md' (md :: map depth (leaves q')).
Proof.
  induction k as [|k IH]; intros b d q md Hq Hd Hk;
    destruct (Quadrant_new_inv _ _ _ _ Hq) as [region [Hroi Heq]];
    destruct (stop_decision q) as [[Hdec Hstop] | [Hdec Hnstop]].
  1, 3:
    exists (set_is_leaf q true), (if md <? depth q then depth q else md);
    (split; [intros [|fuel] Hf; [lia|]; cbn [build]; rewrite Hdec; reflexivity|]);
    subst q; cbn [set_is_leaf bbox depth children color detail is_leaf] in *;
    (split; [eapply Built_leaf; [exact Hq | reflexivity | exact Hstop]|]);
    (split; [reflexivity|]); (split; [reflexivity|]);
    unfold leaves; rewrite nodes_no_children by reflexivity;
    unfold set_is_leaf; cbn [filter is_leaf map depth];
    unfold is_max; destruct (Z.ltb_spec md d); split;
    try (intros z [<-|[<-|[]]]; lia); simpl; auto.
  - exfalso. apply Hnstop. left. subst q. cbn [depth].
    unfold MAX_DEPTH in *. lia.
  - assert (Hlt : d < MAX_DEPTH).
    { destruct (Z.lt_ge_cases d MAX_DEPTH) as [H|H]; [exact H|].
      exfalso. apply Hnstop. left. subst q. exact H. }
    assert (Hd' : INT_MIN <= d < INT_MAX)
      by (unfold MAX_DEPTH, INT_MAX in *; lia).
    destruct (split_region_ok image b d q Hwf Hq Hd')
      as [c0 [c1 [c2 [c3 [H0 [H1 [H2 [H3 Hsplit]]]]]]]].
    assert (Hk' : (Z.to_nat (MAX_DEPTH - (d + 1)) <= k)%nat)
      by (unfold MAX_DEPTH in *; lia).
    assert (Hd1 : INT_MIN <= d + 1) by lia.
    destruct (IH _ _ _ md H0 Hd1 Hk') as [b0 [m1 [B0 [T0 [R0 [D0 M0]]]]]].
    destruct (IH _ _ _ m1 H1 Hd1 Hk') as [b1 [m2 [B1 [T1 [R1 [D1 M1]]]]]].
    destruct (IH _ _ _ m2 H2 Hd1 Hk') as [b2 [m3 [B2 [T2 [R2 [D2 M2]]]]]].
    destruct (IH _ _ _ m3 H3 Hd1 Hk') as [b3 [m4 [B3 [T3 [R3 [D3 M3]]]]]].
    exists (set_children q [Some b0; Some b1; Some b2; Some b3]), m4.
    split.
    { intros [|fuel] Hf; [lia|]. cbn [build]. rewrite Hdec, Hsplit.
      cbn [bind set_children children for_each].
      rewrite B0 by lia. cbn [bind]. rewrite B1 by lia. cbn [bind].
      rewrite B2 by lia. cbn [bind]. rewrite B3 by lia. cbn [bind].
      reflexivity. }
    subst q. unfold set_children.
    cbn [bbox depth children color detail is_leaf] in *.
    split.
    { eapply Built_split;
        [exact Hq | reflexivity | exact Hnstop | | | | | | | | | | | | ];
        cbn [bbox depth]; assumption. }
    split; [reflexivity|]. split; [reflexivity|].
    unfold leaves. rewrite (nodes_four _ b0 b1 b2 b3) by reflexivity.
    cbn [filter is_leaf]. rewrite !filter_app, !map_app.
    eapply is_max_chain; [exact M0|].
    eapply is_max_chain; [exact M1|].
    eapply is_max_chain; [exact M2|].
    exact M3.
Qed.

(** ** Built trees *)

Section BuiltTrees.

Variable image : Mat.

Lemma Built_leaf_fields (b : Rect) (d : Z) (q q0 : Quadrant) :
  Quadrant_new image b d = Ok q0 ->
  q = set_is_leaf q0 true ->
  children q = [None; None; None; None] /\ is_leaf q = true.
Proof.
  intros Hq0 ->. destruct (Quadrant_new_inv _ _ _ _ Hq0) as [region [_ ->]].
  split; reflexivity.
Qed.

Lemma Built_split_fields (b : Rect) (d : Z) (q q0 : Quadrant)
      (cs : list (option Quadrant)) :
  Quadrant_new image b d = Ok q0 ->
  q = set_children q0 cs ->
  children q = cs /\ is_leaf q = false.
Proof.
  intros Hq0 ->. destruct (Quadrant_new_inv _ _ _ _ Hq0) as [region [_ ->]].
  split; reflexivity.
Qed.

Lemma Built_nodes (q : Quadrant) :
  Built image q -> forall n, In n (nodes q) -> Built image n.
Proof.
  intros HB. induction HB as
    [q q0 Hq0 Heq Hstop
    | q q0 c0 c1 c2 c3 Hq0 Heq Hns R0 R1 R2 R3 D0 D1 D2 D3
        B0 IH0 B1 IH1 B2 IH2 B3 IH3]; intros n Hn.
  - destruct (Built_leaf_fields _ _ _ _ Hq0 Heq) as [Hc _].
    rewrite nodes_no_children in Hn by exact Hc.
    destruct Hn as [<- | []]. eapply Built_leaf; eassumption.
  - destruct (Built_split_fields _ _ _ _ _ Hq0 Heq) as [Hc _].
    rewrite (nodes_four q c0 c1 c2 c3) in Hn by exact Hc.
    destruct Hn as [<- | Hn].
    + eapply Built_split; eassumption.
    + repeat (apply in_app_or in Hn; destruct Hn as [Hn | Hn]); auto.
Qed.

Lemma Built_rect_in (n : Quadrant) :
  Built image n -> rect_in image (bbox n).
Proof.
  intros HB. destruct HB as
    [q q0 Hq0 _ _ | q q0 c0 c1 c2 c3 Hq0 _ _ _ _ _ _ _ _ _ _ _ _ _ _];
    destruct (Quadrant_new_inv _ _ _ _ Hq0) as [region [Hroi _]];
    apply (Mat_roi_rect_in _ _ _ Hroi).
Qed.

Lemma Built_detail (n : Quadrant) :
  Built image n ->
  exists region,
    Mat_roi image (bbox n) = Ok region /\ detail n = get_detail region.
Proof.
  intros HB. destruct HB as
    [q q0 Hq0 Heq _ | q q0 c0 c1 c2 c3 Hq0 Heq _ _ _ _ _ _ _ _ _ _ _ _ _];
    destruct (Quadrant_new_inv _ _ _ _ Hq0) as [region [Hroi Hq0eq]];
    exists region; (split; [exact Hroi|]); rewrite Heq, Hq0eq; reflexivity.
Qed.

(** A built node is a leaf exactly when the stop condition held. *)
Lemma Built_is_leaf (n : Quadrant) :
  Built image n -> (is_leaf n = true <-> stops n).
Proof.
  intros HB. destruct HB as
    [q q0 Hq0 Heq Hstop
    | q q0 c0 c1 c2 c3 Hq0 Heq Hns _ _ _ _ _ _ _ _ _ _ _ _].
  - destruct (Built_leaf_fields _ _ _ _ Hq0 Heq) as [_ Hl].
    split; [intros _; exact Hstop | intros _; exact Hl].
  - destruct (Built_split_fields _ _ _ _ _ Hq0 Heq) as [_ Hl].
    split; [|intros H; contradiction].
    intros H. rewrite Hl in H. discriminate.
Qed.

Lemma Built_leaf_children (n : Quadrant) :
  Built image n -> is_leaf n = true ->
  children n = [None; None; None; None].
Proof.
  intros HB Hl. destruct HB as
    [q q0 Hq0 Heq Hstop
    | q q0 c0 c1 c2 c3 Hq0 Heq Hns _ _ _ _ _ _ _ _ _ _ _ _].
  - apply (Built_leaf_fields _ _ _ _ Hq0 Heq).
  - destruct (Built_split_fields _ _ _ _ _ Hq0 Heq) as [_ Hl'].
    rewrite Hl' in Hl. discriminate.
Qed.

Lemma Built_split_children (n : Quadrant) :
  Built image n -> is_leaf n = false ->
  exists c0 c1 c2 c3,
    children n = [Some c0; Some c1; Some c2; Some c3] /\
    (bbox c0 = quadrant_rect (bbox n) 0 /\ bbox c1 = quadrant_rect (bbox n) 1 /\
     bbox c2 = quadrant_rect (bbox n) 2 /\ bbox c3 = quadrant_rect (bbox n) 3) /\
    (depth c0 = depth n + 1 /\ depth c1 = depth n + 1 /\
     depth c2 = depth n + 1 /\ depth c3 = depth n + 1) /\
    ~ stops n.
Proof.
  intros HB Hl. destruct HB as
    [q q0 Hq0 Heq Hstop
    | q q0 c0 c1 c2 c3 Hq0 Heq Hns R0 R1 R2 R3 D0 D1 D2 D3 _ _ _ _].
  - destruct (Built_leaf_fields _ _ _ _ Hq0 Heq) as [_ Hl'].
    rewrite Hl' in Hl. discriminate.
  - exists c0, c1, c2, c3.
    split; [apply (Built_split_fields _ _ _ _ _ Hq0 Heq)|]. auto 10.
Qed.

Lemma Built_has_leaf (q : Quadrant) :
  Built image q -> exists l, In l (leaves q).
Proof.
  intros HB. induction HB as
    [q q0 Hq0 Heq Hstop
    | q q0 c0 c1 c2 c3 Hq0 Heq Hns R0 R1 R2 R3 D0 D1 D2 D3
        B0 IH0 B1 IH1 B2 IH2 B3 IH3].
  - exists q. unfold leaves. apply filter_In. split; [apply nodes_self|].
    apply (Built_leaf_fields _ _ _ _ Hq0 Heq).
  - destruct IH0 as [l Hl]. exists l. unfold leaves in *.
    apply filter_In in Hl. destruct Hl as [Hl1 Hl2].
    apply filter_In. split; [|exact Hl2].
    rewrite (nodes_four q c0 c1 c2 c3)
      by apply (Built_split_fields _ _ _ _ _ Hq0 Heq).
    right. apply in_or_app. left. exact Hl1.
Qed.

(** Depths grow from the root of a built tree and stop at [MAX_DEPTH]. *)
Lemma Built_depth_range (q : Quadrant) :
  Built image q ->
  forall n, In n (nodes q) ->
            depth q <= depth n <= Z.max (depth q) MAX_DEPTH.
Proof.
  intros HB. induction HB as
    [q q0 Hq0 Heq Hstop
    | q q0 c0 c1 c2 c3 Hq0 Heq Hns R0 R1 R2 R3 D0 D1 D2 D3
        B0 IH0 B1 IH1 B2 IH2 B3 IH3]; intros n Hn.
  - destruct (Built_leaf_fields _ _ _ _ Hq0 Heq) as [Hc _].
    rewrite nodes_no_children in Hn by exact Hc.
    destruct Hn as [<- | []]. lia.
  - rewrite (nodes_four q c0 c1 c2 c3) in Hn
      by apply (Built_split_fields _ _ _ _ _ Hq0 Heq).
    assert (Hlt : depth q < MAX_DEPTH).
    { destruct (Z.lt_ge_cases (depth q) MAX_DEPTH) as [H|H]; [exact H|].
      exfalso. apply Hns. left. exact H. }
    destruct Hn as [<- | Hn]; [lia|].
    repeat (apply in_app_or in Hn; destruct Hn as [Hn | Hn]);
      [specialize (IH0 n Hn) | specialize (IH1 n Hn)
       | specialize (IH2 n Hn) | specialize (IH3 n Hn)]; lia.
Qed.

Lemma Built_nodes_trans (q : Quadrant) :
  Built image q ->
  forall n, In n (nodes q) -> forall m, In m (nodes n) -> In m (nodes q).
Proof.
  intros HB. induction HB as
    [q q0 Hq0 Heq Hstop
    | q q0 c0 c1 c2 c3 Hq0 Heq Hns R0 R1 R2 R3 D0 D1 D2 D3
        B0 IH0 B1 IH1 B2 IH2 B3 IH3]; intros n Hn m Hm.
  - destruct (Built_leaf_fields _ _ _ _ Hq0 Heq) as [Hc _].
    rewrite nodes_no_children in Hn by exact Hc.
    destruct Hn as [<- | []]. exact Hm.
  - destruct (Built_split_fields _ _ _ _ _ Hq0 Heq) as [Hc _].
    rewrite (nodes_four q c0 c1 c2 c3) in Hn by exact Hc.
    destruct Hn as [<- | Hn]; [exact Hm|].
    rewrite (nodes_four q c0 c1 c2 c3) by exact Hc. right.
    repeat (apply in_app_or in Hn; destruct Hn as [Hn | Hn]).
    + apply in_or_app. left. eauto.
    + apply in_or_app. right. apply in_or_app. left. eauto.
    + do 2 (apply in_or_app; right). apply in_or_app. left. eauto.
    + do 3 (apply in_or_app; right). eauto.
Qed.

(** *** Nodes without spread *)

(** A built node whose stored detail is 0 is a leaf. *)
Lemma Built_zero_detail_leaf (n : Quadrant) :
  Built image n -> detail n = 0%R -> is_leaf n = true.
Proof.
  intros HB Hd. apply (Built_is_leaf _ HB). right. rewrite Hd.
  unfold DETAIL_THRESHOLD. lra.
Qed.

End BuiltTrees.

(** The tree that [build_tree] returns on a well-formed image. *)
Lemma build_tree_spec (image : Mat) :
  wf_image image ->
  exists r md,
    (forall fuel, (9 <= fuel)%nat ->
                  build_tree fuel image = Ok (mkQuadTree (Some r) md)) /\
    Built image r /\
    bbox r = mkRect 0 0 (cols image) (rows image) /\
    depth r = 0 /\
    is_max md (0 :: map depth (leaves r)).
Proof.
  intros Hwf.
  assert (Hin : rect_in image (mkRect 0 0 (cols image) (rows image))).
  { destruct Hwf as [Hr Hc]. unfold rect_in. simpl. lia. }
  destruct (Quadrant_new_total image _ 0 Hin) as [q [Hq _]].
  destruct (build_spec image Hwf 8 _ 0 q 0 Hq) as [r [md [Hb [HB [Hr [Hd Hm]]]]]].
  - unfold INT_MIN. lia.
  - reflexivity.
  - exists r, md. split; [|auto].
    intros fuel Hf. unfold build_tree, QuadTree_new. rewrite Hq.
    cbn [bind root max_depth]. rewrite Hb by lia. reflexivity.
Qed.

Lemma nodes_child (q c : Quadrant) :
  In (Some c) (children q) -> In c (nodes q).
Proof.
  intros H. rewrite nodes_unfold. right.
  apply in_flat_map. exists (Some c). split; [exact H | apply nodes_self].
Qed.

Lemma build_tree_builds (image : Mat) :
  wf_image image ->
  exists t r,
    builds image t r /\ Built image r /\
    bbox r = mkRect 0 0 (cols image) (rows image) /\ depth r = 0 /\
    is_max (max_depth t) (0 :: map depth (leaves r)).
Proof.
  intros Hwf.
  destruct (build_tree_spec image Hwf) as [r [md [Hb [HB [Hr [Hd Hm]]]]]].
  exists (mkQuadTree (Some r) md), r. unfold builds. cbn [root max_depth].
  auto 10.
Qed.

(** The view of the whole image has the pixels of the image. *)
Lemma Mat_roi_full (image region : Mat) :
  Mat_roi image (mkRect 0 0 (cols image) (rows image)) = Ok region ->
  get_detail region = get_detail image.
Proof.
  unfold Mat_roi. cbn [x y width height].
  destruct ((0 <=? 0) && (0 <=? cols image) && (0 + cols image <=? cols image)
            && (0 <=? 0) && (0 <=? rows image)
            && (0 + rows image <=? rows image)); [|discriminate].
  intros H. inversion H. reflexivity.
Qed.

(** The root of the tree built over an image whose detail reaches the
    threshold is split. *)
Lemma root_is_split (image : Mat) (r : Quadrant) :
  Built image r ->
  bbox r = mkRect 0 0 (cols image) (rows image) -> depth r = 0 ->
  (IZR DETAIL_THRESHOLD <= get_detail image)%R ->
  is_leaf r = false.
Proof.
  intros HB Hb Hd Hdet.
  destruct (is_leaf r) eqn:E; [|reflexivity].
  apply (Built_is_leaf _ _ HB) in E.
  destruct (Built_detail _ _ HB) as [region [Hroi Hdr]].
  rewrite Hb in Hroi. apply Mat_roi_full in Hroi.
  destruct E as [E|E].
  - rewrite Hd in E. unfold MAX_DEPTH in E. lia.
  - rewrite Hdr, Hroi in E. lra.
Qed.

Lemma wf_img_1x2 : wf_image img_1x2.
Proof. unfold wf_image, INT_MAX. simpl. lia. Qed.

(** ** Geometry of the four quadrants *)

Lemma quadrant_rect_size (b : Rect) (k : nat) :
  width (quadrant_rect b k) = width b / 2 /\
  height (quadrant_rect b k) = height b / 2.
Proof. destruct k as [|[|[|k]]]; split; reflexivity. Qed.


Lemma quadrant_rect_inside (b : Rect) (k : nat) (px py : Z) :
  0 <= width b -> 0 <= height b ->
  inside (quadrant_rect b k) px py -> inside b px py.
Proof.
  intros Hw Hh.
  halving b.
  unfold inside. destruct k as [|[|[|k]]]; simpl; lia.
Qed.

(** A pixel of the rectangle lies in one of the quadrants, unless it
    is in the last column of an odd width or in the last row of an odd
    height. *)
Lemma quadrant_rect_cover (b : Rect) (px py : Z) :
  inside b px py ->
  (inside (quadrant_rect b 0) px py \/ inside (quadrant_rect b 1) px py \/
   inside (quadrant_rect b 2) px py \/ inside (quadrant_rect b 3) px py)
  \/ (Z.odd (width b) = true /\ px = x b + width b - 1)
  \/ (Z.odd (height b) = true /\ py = y b + height b - 1).
Proof.
  unfold inside. simpl. intros [Hx Hy].
  pose proof (Z.div_mod (width b) 2) as Hwm.
  pose proof (Z.div_mod (height b) 2) as Hhm.
  pose proof (Zmod_odd (width b)) as Hwo.
  pose proof (Zmod_odd (height b)) as Hho.
  destruct (Z.odd (width b)), (Z.odd (height b));
    destruct (Z.lt_ge_cases px (x b + width b / 2));
    destruct (Z.lt_ge_cases py (y b + height b / 2));
    destruct (Z.lt_ge_cases px (x b + width b / 2 + width b / 2));
    destruct (Z.lt_ge_cases py (y b + height b / 2 + height b / 2));
    try lia;
    first [ left; lia
          | right; left; split; [reflexivity | lia]
          | right; right; split; [reflexivity | lia] ].
Qed.

(** * Properties of the specification *)

(** C4.  In the tree built over any well-formed image, a node is a leaf
    if and only if its depth is at least MAX_DEPTH (8) or its detail
    score, the one the constructor computed over the node's region, is
    strictly below DETAIL_THRESHOLD (13); every other node has exactly
    four children, which are nodes of the tree in their turn, so that
    the same rule was applied to each of them. *)
Theorem build_leaf_iff_stop (image : Mat) :
  wf_image image ->
  exists t r,
    builds image t r /\
    forall n, In n (nodes r) ->
      (exists region, Mat_roi image (bbox n) = Ok region /\
                      detail n = get_detail region) /\
      (is_leaf n = true <->
       (MAX_DEPTH <= depth n \/ (detail n < IZR DETAIL_THRESHOLD)%R)) /\
      (is_leaf n = false ->
       exists c0 c1 c2 c3,
         children n = [Some c0; Some c1; Some c2; Some c3] /\
         In c0 (nodes r) /\ In c1 (nodes r) /\
         In c2 (nodes r) /\ In c3 (nodes r)).
Proof.
  intros Hwf.
  destruct (build_tree_builds image Hwf) as [t [r [Hb [HB _]]]].
  exists t, r. split; [exact Hb|]. intros n Hn.
  pose proof (Built_nodes _ _ HB n Hn) as HBn.
  split; [apply (Built_detail _ _ HBn)|].
  split; [apply (Built_is_leaf _ _ HBn)|].
  intros Hl.
  destruct (Built_split_children _ _ HBn Hl) as [c0 [c1 [c2 [c3 [Hc _]]]]].
  exists c0, c1, c2, c3. split; [exact Hc|].
  repeat split; apply (Built_nodes_trans _ _ HB n Hn); apply nodes_child;
    rewrite Hc; simpl; auto.
Qed.

Lemma build_leaf_iff_stop_witness :
  exists t r,
    builds img_2x2 t r /\
    forall n, In n (nodes r) ->
      (exists region, Mat_roi img_2x2 (bbox n) = Ok region /\
                      detail n = get_detail region) /\
      (is_leaf n = true <->
       (MAX_DEPTH <= depth n \/ (detail n < IZR DETAIL_THRESHOLD)%R)) /\
      (is_leaf n = false ->
       exists c0 c1 c2 c3,
         children n = [Some c0; Some c1; Some c2; Some c3] /\
         In c0 (nodes r) /\ In c1 (nodes r) /\
         In c2 (nodes r) /\ In c3 (nodes r)).
Proof.
  apply (build_leaf_iff_stop img_2x2).
  unfold wf_image, INT_MAX. simpl. lia.
Defined.

(** C5.  After [build] has run on the root of the tree constructed over
    any well-formed image, the field [max_depth] is the greatest depth
    of a leaf of the tree: some leaf has that depth and no leaf is
    deeper. *)
Theorem build_max_depth (image : Mat) :
  wf_image image ->
  exists t r,
    builds image t r /\
    (exists l, In l (leaves r) /\ depth l = max_depth t) /\
    (forall l, In l (leaves r) -> depth l <= max_depth t).
Proof.
  intros Hwf.
  destruct (build_tree_builds image Hwf)
    as [t [r [Hb [HB [_ [Hd [Hin Hle]]]]]]].
  exists t, r. split; [exact Hb|].
  assert (Hall : forall l, In l (leaves r) -> 0 <= depth l <= max_depth t).
  { intros l Hl. split.
    - unfold leaves in Hl. apply filter_In in Hl. destruct Hl as [Hl _].
      pose proof (Built_depth_range _ _ HB l Hl). lia.
    - apply Hle. right. apply in_map. exact Hl. }
  split; [|intros l Hl; apply Hall; exact Hl].
  destruct Hin as [H0 | Hin].
  - destruct (Built_has_leaf _ _ HB) as [l Hl]. exists l.
    split; [exact Hl|]. specialize (Hall l Hl). lia.
  - apply in_map_iff in Hin. destruct Hin as [l [Hdl Hl]].
    exists l. split; [exact Hl | exact Hdl].
Qed.

Lemma build_max_depth_witness :
  exists t r,
    builds img_2x2 t r /\
    (exists l, In l (leaves r) /\ depth l = max_depth t) /\
    (forall l, In l (leaves r) -> depth l <= max_depth t).
Proof.
  apply (build_max_depth img_2x2).
  unfold wf_image, INT_MAX. simpl. lia.
Defined.





(** C10.  In the tree built over any well-formed image every node has a
    [children] vector of four entries; the node is a leaf if and only
    if all four entries are null, and it is not a leaf if and only if
    all four entries are non-null: no node is partially populated. *)
Theorem leaf_iff_no_children (image : Mat) :
  wf_image image ->
  exists t r,
    builds image t r /\
    forall n, In n (nodes r) ->
      length (children n) = 4%nat /\
      (is_leaf n = true <-> children n = [None; None; None; None]) /\
      (is_leaf n = false <->
       exists c0 c1 c2 c3, children n = [Some c0; Some c1; Some c2; Some c3]).
Proof.
  intros Hwf.
  destruct (build_tree_builds image Hwf) as [t [r [Hb [HB _]]]].
  exists t, r. split; [exact Hb|]. intros n Hn.
  pose proof (Built_nodes _ _ HB n Hn) as HBn.
  destruct (is_leaf n) eqn:Hl.
  - pose proof (Built_leaf_children _ _ HBn Hl) as Hc. rewrite Hc.
    split; [reflexivity|]. split; [tauto|].
    split; [discriminate|]. intros [c0 [c1 [c2 [c3 H]]]]. discriminate.
  - destruct (Built_split_children _ _ HBn Hl)
      as [c0 [c1 [c2 [c3 [Hc _]]]]]. rewrite Hc.
    split; [reflexivity|]. split.
    + split; discriminate.
    + split; [|reflexivity]. intros _. exists c0, c1, c2, c3. reflexivity.
Qed.

Lemma leaf_iff_no_children_witness :
  exists t r,
    builds img_2x2 t r /\
    forall n, In n (nodes r) ->
      length (children n) = 4%nat /\
      (is_leaf n = true <-> children n = [None; None; None; None]) /\
      (is_leaf n = false <->
       exists c0 c1 c2 c3, children n = [Some c0; Some c1; Some c2; Some c3]).
Proof.
  apply (leaf_iff_no_children img_2x2).
  unfold wf_image, INT_MAX. simpl. lia.
Defined.

(** ** Degenerate regions *)

Lemma wf_img_grey_2x2 : wf_image img_grey_2x2.
Proof. unfold wf_image, INT_MAX. simpl. lia. Qed.







(** ** The detail score *)

Lemma spec_stddev_img_ch0 :
  spec_stddev (channel_hist 0 img_ch0) = (255 / 2)%R /\
  spec_stddev (channel_hist 1 img_ch0) = 0%R /\
  spec_stddev (channel_hist 2 img_ch0) = 0%R.
Proof.
  split; [|split].
  - rewrite (spec_stddev_moments _ 2 255 65025);
      try (vm_compute; reflexivity); [|lia].
    replace (IZR (65025 * 2 - 255 * 255) / IZR (2 * 2))%R
      with (255 / 2 * (255 / 2))%R.
    + apply sqrt_square. lra.
    + rewrite minus_IZR, !mult_IZR. lra.
  - rewrite (spec_stddev_moments _ 2 0 0);
      try (vm_compute; reflexivity); [|lia].
    replace (IZR (0 * 2 - 0 * 0) / IZR (2 * 2))%R with 0%R.
    + apply sqrt_0.
    + rewrite minus_IZR, !mult_IZR. lra.
  - rewrite (spec_stddev_moments _ 2 0 0);
      try (vm_compute; reflexivity); [|lia].
    replace (IZR (0 * 2 - 0 * 0) / IZR (2 * 2))%R with 0%R.
    + apply sqrt_0.
    + rewrite minus_IZR, !mult_IZR. lra.
Qed.

(** C8, what the code does.  On the region of two pixels that differ in
    channel 0 only, by 255, the standard deviations of the three channel
    histograms are 127.5, 0 and 0, so that their weighted sum is
    0.2989 * 127.5 = 38.11 with the weights in channel order, and
    0.1140 * 127.5 = 14.535 with the weights as [get_detail] orders them
    (0.2989 on channel 2, 0.1140 on channel 0).  The code returns
    neither: [weighted_average] reads the bit patterns of the [float]
    bins, and the detail comes out between 20.5 and 20.53. *)
Theorem get_detail_reads_float_bits :
  (20.5 < get_detail img_ch0 < 20.53)%R /\
  (0.2989 * spec_stddev (channel_hist 0 img_ch0)
   + 0.5870 * spec_stddev (channel_hist 1 img_ch0)
   + 0.1140 * spec_stddev (channel_hist 2 img_ch0))%R
  = (0.2989 * (255 / 2))%R /\
  (0.2989 * spec_stddev (channel_hist 2 img_ch0)
   + 0.5870 * spec_stddev (channel_hist 1 img_ch0)
   + 0.1140 * spec_stddev (channel_hist 0 img_ch0))%R
  = (0.1140 * (255 / 2))%R.
Proof.
  destruct spec_stddev_img_ch0 as [-> [-> ->]].
  split; [|split; lra].
  rewrite get_detail_channels.
  assert (H2 : weighted_average (channel_buffer 2 img_ch0) 256
               = (IZR 0 / IZR 1)%R)
    by (eapply weighted_average_wrapped_eq; evaluate_buffer).
  assert (H1 : weighted_average (channel_buffer 1 img_ch0) 256
               = (IZR 0 / IZR 1)%R)
    by (eapply weighted_average_wrapped_eq; evaluate_buffer).
  assert (Hlo : (IZR 1799 / IZR 10
                 <= weighted_average (channel_buffer 0 img_ch0) 256)%R)
    by (eapply weighted_average_wrapped_ge; evaluate_buffer).
  assert (Hhi : (weighted_average (channel_buffer 0 img_ch0) 256
                 <= IZR 180 / IZR 1)%R)
    by (eapply weighted_average_wrapped_le; evaluate_buffer).
  rewrite H2, H1. lra.
Qed.

(** C9.  [weighted_average] returns 0 on every histogram whose total bin
    count is zero, and the detail score of every region without pixels
    is 0. *)
Theorem zero_total_gives_zero :
  (forall (hist : list Z) (size : Z),
      hist_total hist size = 0 -> weighted_average hist size = 0%R) /\
  (forall region : Mat,
      Mat_pixels region = [] -> get_detail region = 0%R).
Proof.
  split.
  - apply weighted_average_zero_total.
  - apply get_detail_no_pixels.
Qed.

Lemma zero_total_gives_zero_witness :
  weighted_average [0; 0; 0; 0] 4 = 0%R /\ get_detail img_empty = 0%R.
Proof.
  split.
  - apply (proj1 zero_total_gives_zero). reflexivity.
  - apply (proj2 zero_total_gives_zero). reflexivity.
Defined.

(** ** Rendering and teardown *)

(** Both traversals step into a child only when the pointer is null:
    over non-null children their loop does nothing. *)
Lemma for_state_non_null {S : Type}
      (f : S -> option Quadrant -> res S) (l : list (option Quadrant)) :
  forall st,
    Forall (fun c => c <> None) l ->
    for_state (fun st child => match child with
                               | None => f st child
                               | Some _ => Ok st
                               end) st l = Ok st.
Proof.
  induction l as [|c l IH]; intros st Hall; [reflexivity|].
  inversion Hall as [|c' l' Hc Hl]; subst.
  destruct c as [c|]; [|contradiction]. cbn [for_state bind]. apply IH, Hl.
Qed.

Lemma four_non_null (c0 c1 c2 c3 : Quadrant) :
  Forall (fun c : option Quadrant => c <> None)
         [Some c0; Some c1; Some c2; Some c3].
Proof. repeat constructor; discriminate. Qed.

Lemma for_state_ext {A S : Type} (f g : S -> A -> res S) (l : list A) :
  (forall st a, f st a = g st a) ->
  forall st, for_state f st l = for_state g st l.
Proof.
  intros H. induction l as [|a l IH]; intros st; [reflexivity|].
  cbn [for_state]. rewrite H. destruct (g st a); cbn [bind]; auto.
Qed.

(** Neither traversal goes deeper than one call below the node it is
    given: two units of fuel are as good as any larger amount, and the
    model's own fault never shows with them. *)
Lemma draw_quadrants_fuel (fuel : nat) (image : Canvas)
      (quad : option Quadrant) (d : Z) (show_lines : bool) :
  draw_quadrants (S (S fuel)) image quad d show_lines
  = draw_quadrants 2 image quad d show_lines.
Proof.
  destruct quad as [q|]; [|reflexivity]. cbn [draw_quadrants].
  destruct ((Z.b2z (is_leaf q) =? d) || is_leaf q); [reflexivity|].
  apply for_state_ext. intros st [c|]; reflexivity.
Qed.

Lemma free_quadtree_fuel (fuel : nat) (freed : list Deleted)
      (quad : option Quadrant) :
  free_quadtree (S (S fuel)) freed quad = free_quadtree 2 freed quad.
Proof.
  destruct quad as [q|]; [|reflexivity]. cbn [free_quadtree].
  apply for_state_ext. intros st [c|]; reflexivity.
Qed.

Lemma for_state_no_OutOfFuel {A S : Type} (f : S -> A -> res S) (l : list A) :
  (forall st a, f st a <> Fault OutOfFuel) ->
  forall st, for_state f st l <> Fault OutOfFuel.
Proof.
  intros H. induction l as [|a l IH]; intros st; [discriminate|].
  cbn [for_state]. specialize (H st a).
  destruct (f st a) as [st1|e]; cbn [bind]; [apply IH | exact H].
Qed.

Lemma draw_quadrants_terminates (image : Canvas) (quad : option Quadrant)
      (d : Z) (show_lines : bool) :
  draw_quadrants 2 image quad d show_lines <> Fault OutOfFuel.
Proof.
  destruct quad as [q|]; [|discriminate]. cbn [draw_quadrants].
  destruct ((Z.b2z (is_leaf q) =? d) || is_leaf q); [discriminate|].
  apply for_state_no_OutOfFuel. intros st [c|]; discriminate.
Qed.

Lemma free_quadtree_terminates (freed : list Deleted)
      (quad : option Quadrant) :
  free_quadtree 2 freed quad <> Fault OutOfFuel.
Proof.
  destruct quad as [q|]; [|discriminate]. cbn [free_quadtree].
  apply for_state_no_OutOfFuel. intros st [c|]; discriminate.
Qed.

(** On a node that is not a leaf and has its four children,
    [draw_quadrants] draws nothing unless the requested depth is 0. *)
Lemma draw_quadrants_split_node (fuel : nat) (image : Canvas)
      (q c0 c1 c2 c3 : Quadrant) (d : Z) (show_lines : bool) :
  is_leaf q = false ->
  children q = [Some c0; Some c1; Some c2; Some c3] ->
  d <> 0 ->
  draw_quadrants (S fuel) image (Some q) d show_lines = Ok image.
Proof.
  intros Hl Hc Hd. cbn [draw_quadrants]. rewrite Hl, Hc. cbn [Z.b2z].
  destruct (Z.eqb_spec 0 d) as [E|_]; [congruence|]. cbn [orb].
  apply (for_state_non_null
           (fun image child => draw_quadrants fuel image child d show_lines)).
  apply four_non_null.
Qed.

Lemma free_quadtree_split_node (fuel : nat) (freed : list Deleted)
      (q c0 c1 c2 c3 : Quadrant) :
  children q = [Some c0; Some c1; Some c2; Some c3] ->
  free_quadtree (S fuel) freed (Some q) = Ok freed.
Proof.
  intros Hc. cbn [free_quadtree]. rewrite Hc.
  apply (for_state_non_null
           (fun freed child =>
              freed <- free_quadtree fuel freed child ;;
              Ok (freed ++ [DeleteSlot child]))).
  apply four_non_null.
Qed.

Lemma free_quadtree_leaf_node (fuel : nat) (freed : list Deleted)
      (q : Quadrant) :
  children q = [None; None; None; None] ->
  free_quadtree (S (S fuel)) freed (Some q) = Fault NullDeref.
Proof. intros Hc. cbn [free_quadtree]. rewrite Hc. reflexivity. Qed.

(** X12.  What rendering does on every built tree: the root is filled (and
    outlined on request) when it is a leaf or the requested depth is 0,
    and nothing at all is drawn otherwise. *)
Lemma create_image_built (image : Mat) :
  wf_image image ->
  exists t r,
    builds image t r /\
    forall (fuel : nat) (d : Z) (show_lines : bool),
      create_image (S fuel) t d show_lines
      = Ok (let blank := Mat_zeros (rows image) (cols image) in
            if is_leaf r || (d =? 0) then
              let filled :=
                draw blank (rectangle (bbox r) (color_scalar (color r))
                                      FILLED) in
              if show_lines
              then draw filled (rectangle (bbox r) (0, 0, 0) 1)
              else filled
            else blank).
Proof.
  intros Hwf.
  destruct (build_tree_builds image Hwf) as [t [r [Hb [HB [Hr _]]]]].
  exists t, r. split; [exact Hb|]. intros fuel d show_lines.
  unfold create_image. destruct Hb as [_ ->].
  replace (height (bbox r)) with (rows image) by (rewrite Hr; reflexivity).
  replace (width (bbox r)) with (cols image) by (rewrite Hr; reflexivity).
  destruct (is_leaf r) eqn:Hl.
  - cbn [draw_quadrants]. rewrite Hl, orb_true_r. reflexivity.
  - destruct (Built_split_children _ _ HB Hl) as [c0 [c1 [c2 [c3 [Hc _]]]]].
    destruct (Z.eqb_spec d 0) as [->|Hd].
    + cbn [draw_quadrants]. rewrite Hl. reflexivity.
    + cbn [orb]. cbv zeta.
      apply (draw_quadrants_split_node fuel _ r c0 c1 c2 c3 d show_lines Hl Hc Hd).
Qed.

(** X13.  What the destructor does on every built tree: a null dereference
    when the root is a leaf, and no [delete] at all otherwise. *)
Lemma QuadTree_delete_built (image : Mat) :
  wf_image image ->
  exists t r,
    builds image t r /\
    forall fuel : nat,
      QuadTree_delete (S (S fuel)) t
      = if is_leaf r then Fault NullDeref else Ok [].
Proof.
  intros Hwf.
  destruct (build_tree_builds image Hwf) as [t [r [Hb [HB _]]]].
  exists t, r. split; [exact Hb|]. intros fuel.
  unfold QuadTree_delete. destruct Hb as [_ ->].
  destruct (is_leaf r) eqn:Hl.
  - apply free_quadtree_leaf_node, (Built_leaf_children _ _ HB Hl).
  - destruct (Built_split_children _ _ HB Hl) as [c0 [c1 [c2 [c3 [Hc _]]]]].
    apply (free_quadtree_split_node (S fuel) [] r c0 c1 c2 c3 Hc).
Qed.

Lemma Mat_roi_pixels (image : Mat) (b : Rect) (region : Mat) :
  Mat_roi image b = Ok region ->
  Mat_pixels region
  = flat_map (fun i => map (fun j => at_ image (y b + i) (x b + j))
                           (Zrange (width b)))
             (Zrange (height b)).
Proof.
  unfold Mat_roi.
  destruct ((0 <=? x b) && (0 <=? width b) && (x b + width b <=? cols image)
            && (0 <=? y b) && (0 <=? height b)
            && (y b + height b <=? rows image)); [|discriminate].
  intros H. inversion H. reflexivity.
Qed.

(** The tree built over [img_grey_2x2]: the root has detail 15.87 and is
    split, each of its four children is one pixel with detail 12.09 and
    is a leaf. *)
Lemma built_img_grey_2x2 :
  exists t r c0 c1 c2 c3,
    builds img_grey_2x2 t r /\
    bbox r = mkRect 0 0 2 2 /\ depth r = 0 /\ is_leaf r = false /\
    children r = [Some c0; Some c1; Some c2; Some c3] /\
    Forall (fun c => is_leaf c = true /\ depth c = 1 /\
                     children c = [None; None; None; None])
           [c0; c1; c2; c3].
Proof.
  destruct (build_tree_builds img_grey_2x2 wf_img_grey_2x2)
    as [t [r [Hb [HB [Hr [Hd _]]]]]].
  assert (Hl : is_leaf r = false).
  { apply (root_is_split img_grey_2x2 r HB Hr Hd).
    rewrite get_detail_img_grey_2x2. unfold DETAIL_THRESHOLD. lra. }
  destruct (Built_split_children _ _ HB Hl)
    as [c0 [c1 [c2 [c3 [Hcs [[R0 [R1 [R2 R3]]] [[D0 [D1 [D2 D3]]] _]]]]]]].
  exists t, r, c0, c1, c2, c3.
  split; [exact Hb|]. split; [exact Hr|]. split; [exact Hd|].
  split; [exact Hl|]. split; [exact Hcs|].
  assert (He : forall c k,
             In (Some c) (children r) ->
             bbox c = quadrant_rect (bbox r) k -> depth c = depth r + 1 ->
             is_leaf c = true /\ depth c = 1 /\
             children c = [None; None; None; None]).
  { intros c k Hin Hbc Hdc.
    assert (HBc : Built img_grey_2x2 c)
      by (apply (Built_nodes _ _ HB), nodes_child, Hin).
    assert (Hlc : is_leaf c = true).
    { apply (Built_is_leaf _ _ HBc). right.
      destruct (Built_detail _ _ HBc) as [region [Hroi ->]].
      destruct (quadrant_rect_size (bbox r) k) as [Hw Hh].
      rewrite <- Hbc, Hr in Hw, Hh.
      rewrite (get_detail_pixels region img_grey_1x1).
      - rewrite get_detail_img_grey_1x1. unfold DETAIL_THRESHOLD. lra.
      - rewrite (Mat_roi_pixels _ _ _ Hroi), Hw, Hh. reflexivity. }
    split; [exact Hlc|]. split; [lia|].
    apply (Built_leaf_children _ _ HBc Hlc). }
  repeat (apply Forall_cons;
          [eapply He; [rewrite Hcs; simpl; auto | eassumption | assumption]|]).
  apply Forall_nil.
Qed.

(** C1, what the code does.  Over [img_grey_2x2] the built root is not a
    leaf and has depth 0 and four leaf children of depth 1.  Rendering
    at depth 1 should pass the root and fill the four children; the code
    returns the black image with no rectangle drawn on it, whatever the
    borders flag: the root is not filled and no child is visited. *)
Theorem draw_quadrants_visits_no_child :
  exists t r c0 c1 c2 c3,
    builds img_grey_2x2 t r /\
    is_leaf r = false /\ depth r = 0 /\
    children r = [Some c0; Some c1; Some c2; Some c3] /\
    Forall (fun c => is_leaf c = true /\ depth c = 1) [c0; c1; c2; c3] /\
    forall (fuel : nat) (show_lines : bool),
      create_image (S fuel) t 1 show_lines = Ok (Mat_zeros 2 2).
Proof.
  destruct built_img_grey_2x2
    as [t [r [c0 [c1 [c2 [c3 [Hb [Hr [Hd [Hl [Hc Hcs]]]]]]]]]]].
  exists t, r, c0, c1, c2, c3.
  split; [exact Hb|]. split; [exact Hl|]. split; [exact Hd|].
  split; [exact Hc|]. split.
  - eapply Forall_impl; [|exact Hcs]. intros c [H1 [H2 _]]. auto.
  - intros fuel show_lines. unfold create_image.
    destruct Hb as [_ ->]. rewrite Hr. cbn [height width].
    apply (draw_quadrants_split_node fuel _ r c0 c1 c2 c3); [exact Hl | exact Hc | lia].
Qed.

(** C3, what the code does.  Over [img_grey_2x2] the built tree has five
    nodes; the destructor returns without having evaluated a single
    [delete]: no node is released.  Over [img_1x1] the built tree is a
    single leaf, and the destructor dereferences a null pointer. *)
Theorem free_quadtree_releases_no_node :
  (exists t r,
      builds img_grey_2x2 t r /\ length (nodes r) = 5%nat /\
      forall fuel, QuadTree_delete (S fuel) t = Ok []) /\
  (exists t r,
      builds img_1x1 t r /\ is_leaf r = true /\
      forall fuel, QuadTree_delete (S (S fuel)) t = Fault NullDeref).
Proof.
  split.
  - destruct built_img_grey_2x2
      as [t [r [c0 [c1 [c2 [c3 [Hb [Hr [Hd [Hl [Hc Hcs]]]]]]]]]]].
    exists t, r. split; [exact Hb|]. split.
    + rewrite (nodes_four r c0 c1 c2 c3 Hc).
      inversion Hcs as [|? ? [_ [_ H0]] Hcs1]; subst.
      inversion Hcs1 as [|? ? [_ [_ H1]] Hcs2]; subst.
      inversion Hcs2 as [|? ? [_ [_ H2]] Hcs3]; subst.
      inversion Hcs3 as [|? ? [_ [_ H3]] _]; subst.
      rewrite (nodes_no_children c0 H0), (nodes_no_children c1 H1),
        (nodes_no_children c2 H2), (nodes_no_children c3 H3).
      reflexivity.
    + intros fuel. unfold QuadTree_delete. destruct Hb as [_ ->].
      apply (free_quadtree_split_node fuel [] r c0 c1 c2 c3 Hc).
  - assert (Hwf : wf_image img_1x1)
      by (unfold wf_image, INT_MAX; simpl; lia).
    destruct (build_tree_builds img_1x1 Hwf) as [t [r [Hb [HB [Hr _]]]]].
    assert (Hl : is_leaf r = true).
    { apply (Built_zero_detail_leaf _ _ HB).
      destruct (Built_detail _ _ HB) as [region [Hroi ->]].
      rewrite Hr in Hroi. rewrite (Mat_roi_full _ _ Hroi).
      apply get_detail_img_1x1. }
    exists t, r. split; [exact Hb|]. split; [exact Hl|].
    intros fuel. unfold QuadTree_delete. destruct Hb as [_ ->].
    apply free_quadtree_leaf_node. apply (Built_leaf_children _ _ HB Hl).
Qed.

(** * Further properties of the code *)

(** ** Range of the detail score *)

Lemma weighted_average_nonneg (hist : list Z) (size : Z) :
  (0 <= weighted_average hist size)%R.
Proof.
  unfold weighted_average.
  destruct (wa_sum (Z.to_nat size) 0 hist 0 0%R) as [total value].
  destruct (0 <? total); [apply sqrt_pos | lra].
Qed.

(** X1.  The detail score of every region, whatever its size and
    content, is non-negative. *)
Theorem get_detail_nonneg (region : Mat) : (0 <= get_detail region)%R.
Proof.
  rewrite get_detail_channels.
  pose proof (weighted_average_nonneg (channel_buffer 2 region) 256).
  pose proof (weighted_average_nonneg (channel_buffer 1 region) 256).
  pose proof (weighted_average_nonneg (channel_buffer 0 region) 256).
  lra.
Qed.

(** ** The detail score ignores the arrangement of the pixels *)

Lemma filter_length_Permutation {A : Type} (f : A -> bool) (l l' : list A) :
  Permutation l l' -> length (filter f l) = length (filter f l').
Proof.
  intros H. induction H as [|a l l' _ IH|a b l|l l' l'' _ IH1 _ IH2];
    simpl; try destruct (f a); try destruct (f b); simpl; congruence.
Qed.

Lemma calcHist_Permutation (plane plane' : list Z) (size : Z) :
  Permutation plane plane' -> calcHist plane size = calcHist plane' size.
Proof.
  intros H. unfold calcHist. apply map_ext. intros i.
  f_equal. apply filter_length_Permutation, H.
Qed.

(** X3.  Two regions that hold the same pixels in a different
    arrangement have the same detail score. *)
Theorem get_detail_Permutation (a b : Mat) :
  Permutation (Mat_pixels a) (Mat_pixels b) -> get_detail a = get_detail b.
Proof.
  intros H. rewrite !get_detail_channels. unfold channel_buffer, channel_hist.
  rewrite (calcHist_Permutation _ _ 256 (Permutation_map (channel 2) H)).
  rewrite (calcHist_Permutation _ _ 256 (Permutation_map (channel 1) H)).
  rewrite (calcHist_Permutation _ _ 256 (Permutation_map (channel 0) H)).
  reflexivity.
Qed.

Lemma get_detail_Permutation_witness :
  get_detail img_1x2 = get_detail img_1x2_flip.
Proof.
  apply (get_detail_Permutation img_1x2 img_1x2_flip).
  apply perm_swap.
Defined.

(** ** [split_region] and [build] on nodes that were built before *)

(** X6.  On any node with four child slots whose bbox lies in a
    well-formed image, [split_region] succeeds, leaves the node's own
    fields alone and overwrites all four slots with nodes fresh from the
    constructor over the four quadrants, one level deeper: what the
    slots held before is dropped. *)
Theorem split_region_overwrites (image : Mat) (q : Quadrant) :
  wf_image image ->
  rect_in image (bbox q) ->
  length (children q) = 4%nat ->
  INT_MIN <= depth q < INT_MAX ->
  exists c0 c1 c2 c3,
    Quadrant_new image (quadrant_rect (bbox q) 0) (depth q + 1) = Ok c0 /\
    Quadrant_new image (quadrant_rect (bbox q) 1) (depth q + 1) = Ok c1 /\
    Quadrant_new image (quadrant_rect (bbox q) 2) (depth q + 1) = Ok c2 /\
    Quadrant_new image (quadrant_rect (bbox q) 3) (depth q + 1) = Ok c3 /\
    split_region q image
    = Ok (set_children q [Some c0; Some c1; Some c2; Some c3]).
Proof.
  intros [Hrows Hcols] Hin Hlen Hd.
  destruct (Quadrant_new_total image _ (depth q + 1)
              (quadrant_rect_in image (bbox q) 0 Hin)) as [c0 [H0 _]].
  destruct (Quadrant_new_total image _ (depth q + 1)
              (quadrant_rect_in image (bbox q) 1 Hin)) as [c1 [H1 _]].
  destruct (Quadrant_new_total image _ (depth q + 1)
              (quadrant_rect_in image (bbox q) 2 Hin)) as [c2 [H2 _]].
  destruct (Quadrant_new_total image _ (depth q + 1)
              (quadrant_rect_in image (bbox q) 3 Hin)) as [c3 [H3 _]].
  exists c0, c1, c2, c3. repeat (split; [assumption|]).
  destruct q as [b d l cs col det]. cbn [bbox depth children] in *.
  destruct cs as [|s0 [|s1 [|s2 [|s3 [|s4 cs]]]]]; try discriminate Hlen.
  unfold rect_in in Hin. halving b.
  unfold split_region. cbn [bbox depth children set_children].
  rewrite !int_half_div by lia.
  unfold int_add.
  rewrite (wrap_small (d + 1)) by (unfold in_int; lia).
  rewrite (wrap_small (x b + width b / 2))
    by (unfold in_int, INT_MIN, INT_MAX in *; lia).
  rewrite (wrap_small (y b + height b / 2))
    by (unfold in_int, INT_MIN, INT_MAX in *; lia).
  unfold quadrant_rect in H0, H1, H2, H3.
  rewrite H0. cbn [bind]. rewrite H1. cbn [bind].
  rewrite H2. cbn [bind]. rewrite H3. cbn [bind].
  reflexivity.
Qed.

Lemma split_region_overwrites_witness :
  let q := mkQuadrant (mkRect 0 0 2 2) 0 true
                      [None; Some (mkQuadrant (mkRect 0 0 1 1) 5 true []
                                              white 0%R); None; None]
                      black 0%R in
  exists c0 c1 c2 c3,
    Quadrant_new img_2x2 (quadrant_rect (bbox q) 0) (depth q + 1) = Ok c0 /\
    Quadrant_new img_2x2 (quadrant_rect (bbox q) 1) (depth q + 1) = Ok c1 /\
    Quadrant_new img_2x2 (quadrant_rect (bbox q) 2) (depth q + 1) = Ok c2 /\
    Quadrant_new img_2x2 (quadrant_rect (bbox q) 3) (depth q + 1) = Ok c3 /\
    split_region q img_2x2
    = Ok (set_children q [Some c0; Some c1; Some c2; Some c3]).
Proof.
  intros q. apply (split_region_overwrites img_2x2 q).
  - unfold wf_image, INT_MAX. simpl. lia.
  - unfold rect_in. simpl. lia.
  - reflexivity.
  - unfold INT_MIN, INT_MAX. simpl. lia.
Defined.

(** Two built nodes over the same bbox at the same depth are the same
    subtree. *)
Lemma Built_unique (image : Mat) (q : Quadrant) :
  Built image q ->
  forall q', Built image q' ->
             bbox q = bbox q' -> depth q = depth q' -> q = q'.
Proof.
  intros HB. induction HB as
    [q q0 Hq0 Heq Hstop
    | q q0 c0 c1 c2 c3 Hq0 Heq Hns R0 R1 R2 R3 D0 D1 D2 D3
        B0 IH0 B1 IH1 B2 IH2 B3 IH3];
    intros q' HB' Hb Hd;
    destruct HB' as
      [q' q0' Hq0' Heq' Hstop'
      | q' q0' c0' c1' c2' c3' Hq0' Heq' Hns' R0' R1' R2' R3'
          D0' D1' D2' D3' B0' B1' B2' B3'];
    rewrite <- Hb, <- Hd in Hq0'; rewrite Hq0 in Hq0';
    inversion Hq0'; subst q0'.
  - congruence.
  - exfalso. apply Hns'. unfold stops in *.
    rewrite <- Hd. replace (detail q') with (detail q); [exact Hstop|].
    rewrite Heq, Heq'. reflexivity.
  - exfalso. apply Hns. unfold stops in *.
    rewrite Hd. replace (detail q) with (detail q'); [exact Hstop'|].
    rewrite Heq, Heq'. reflexivity.
  - assert (E0 : c0 = c0') by (apply (IH0 c0' B0'); congruence).
    assert (E1 : c1 = c1') by (apply (IH1 c1' B1'); congruence).
    assert (E2 : c2 = c2') by (apply (IH2 c2' B2'); congruence).
    assert (E3 : c3 = c3') by (apply (IH3 c3' B3'); congruence).
    rewrite Heq, Heq', E0, E1, E2, E3. reflexivity.
Qed.

(** [build] on a node that [build] has left: the node comes back as it
    is. *)
Lemma build_again (image : Mat) (Hwf : wf_image image) (q : Quadrant)
      (k : nat) (md : Z) :
  Built image q ->
  INT_MIN <= depth q ->
  (Z.to_nat (MAX_DEPTH - depth q) <= k)%nat ->
  exists md',
    (forall fuel, (k < fuel)%nat ->
                  build fuel md (Some q) image = Ok (q, md')) /\
    is_max md' (md :: map depth (leaves q)).
Proof.
  intros HB Hd Hk. pose proof (Built_rect_in _ _ HB) as Hin.
  destruct (stop_decision q) as [[Hdec Hstop] | [Hdec Hnstop]].
  - pose proof (proj2 (Built_is_leaf _ _ HB) Hstop) as Hl.
    pose proof (Built_leaf_children _ _ HB Hl) as Hc.
    exists (if md <? depth q then depth q else md). split.
    + intros [|fuel] Hf; [lia|]. cbn [build]. rewrite Hdec.
      f_equal. f_equal. destruct q as [b d l cs col det].
      cbn [is_leaf] in Hl. subst l. reflexivity.
    + unfold leaves. rewrite (nodes_no_children q Hc).
      cbn [filter]. rewrite Hl. cbn [map].
      unfold is_max. destruct (Z.ltb_spec md (depth q)); split;
        try (intros z [<-|[<-|[]]]; lia); simpl; auto.
  - assert (Hl : is_leaf q = false).
    { destruct (is_leaf q) eqn:E; [|reflexivity].
      apply (Built_is_leaf _ _ HB) in E. contradiction. }
    destruct (Built_split_children _ _ HB Hl)
      as [c0 [c1 [c2 [c3 [Hc [[R0 [R1 [R2 R3]]] [[D0 [D1 [D2 D3]]] _]]]]]]].
    assert (Hlt : depth q < MAX_DEPTH).
    { destruct (Z.lt_ge_cases (depth q) MAX_DEPTH) as [H|H]; [exact H|].
      exfalso. apply Hnstop. left. exact H. }
    destruct k as [|k]; [unfold MAX_DEPTH in *; lia|].
    destruct (split_region_overwrites image q Hwf Hin)
      as [f0 [f1 [f2 [f3 [H0 [H1 [H2 [H3 Hsplit]]]]]]]].
    { rewrite Hc. reflexivity. }
    { unfold MAX_DEPTH, INT_MAX in *. lia. }
    assert (Hk' : (Z.to_nat (MAX_DEPTH - (depth q + 1)) <= k)%nat)
      by (unfold MAX_DEPTH in *; lia).
    assert (Hd1 : INT_MIN <= depth q + 1) by lia.
    pose proof (Built_nodes _ _ HB) as Hsub.
    assert (HBc : forall c, In (Some c) (children q) -> Built image c)
      by (intros c Hi; apply Hsub, nodes_child, Hi).
    rewrite Hc in HBc.
    destruct (build_spec image Hwf k _ _ f0 md H0 Hd1 Hk')
      as [b0 [m1 [B0 [T0 [Rb0 [Db0 M0]]]]]].
    destruct (build_spec image Hwf k _ _ f1 m1 H1 Hd1 Hk')
      as [b1 [m2 [B1 [T1 [Rb1 [Db1 M1]]]]]].
    destruct (build_spec image Hwf k _ _ f2 m2 H2 Hd1 Hk')
      as [b2 [m3 [B2 [T2 [Rb2 [Db2 M2]]]]]].
    destruct (build_spec image Hwf k _ _ f3 m3 H3 Hd1 Hk')
      as [b3 [m4 [B3 [T3 [Rb3 [Db3 M3]]]]]].
    assert (E0 : b0 = c0)
      by (apply (Built_unique image b0 T0 c0); [apply HBc; simpl; auto | congruence | congruence]).
    assert (E1 : b1 = c1)
      by (apply (Built_unique image b1 T1 c1); [apply HBc; simpl; auto | congruence | congruence]).
    assert (E2 : b2 = c2)
      by (apply (Built_unique image b2 T2 c2); [apply HBc; simpl; auto | congruence | congruence]).
    assert (E3 : b3 = c3)
      by (apply (Built_unique image b3 T3 c3); [apply HBc; simpl; auto 6 | congruence | congruence]).
    subst b0 b1 b2 b3.
    exists m4. split.
    + intros [|fuel] Hf; [lia|]. cbn [build]. rewrite Hdec, Hsplit.
      cbn [bind set_children children for_each].
      rewrite B0 by lia. cbn [bind]. rewrite B1 by lia. cbn [bind].
      rewrite B2 by lia. cbn [bind]. rewrite B3 by lia. cbn [bind].
      f_equal. f_equal. destruct q as [b d l cs col det].
      cbn [children] in Hc. subst cs. reflexivity.
    + unfold leaves. rewrite (nodes_four q c0 c1 c2 c3 Hc).
      cbn [filter]. rewrite Hl. rewrite !filter_app, !map_app.
      eapply is_max_chain; [exact M0|].
      eapply is_max_chain; [exact M1|].
      eapply is_max_chain; [exact M2|].
      exact M3.
Qed.

(** X7.  [build] is idempotent: run again on the root of the tree it has
    built over a well-formed image, with the [max_depth] it has left, it
    returns the same tree and the same [max_depth]. *)
Theorem build_idempotent (image : Mat) :
  wf_image image ->
  exists t r,
    builds image t r /\
    forall fuel, (9 <= fuel)%nat ->
                 build fuel (max_depth t) (root t) image
                 = Ok (r, max_depth t).
Proof.
  intros Hwf.
  destruct (build_tree_builds image Hwf)
    as [t [r [Hb [HB [_ [Hd [Hin Hle]]]]]]].
  exists t, r. split; [exact Hb|].
  destruct (build_again image Hwf r 8 (max_depth t) HB)
    as [md' [Hbuild [Hin' Hle']]].
  { rewrite Hd. unfold INT_MIN. lia. }
  { rewrite Hd. reflexivity. }
  assert (md' = max_depth t).
  { apply Z.le_antisymm.
    - destruct Hin' as [<- | Hi]; [lia|]. apply Hle. right. exact Hi.
    - apply Hle'. left. reflexivity. }
  subst md'. intros fuel Hf. destruct Hb as [_ ->]. apply Hbuild. lia.
Qed.

Lemma build_idempotent_witness :
  exists t r,
    builds img_2x2 t r /\
    forall fuel, (9 <= fuel)%nat ->
                 build fuel (max_depth t) (root t) img_2x2
                 = Ok (r, max_depth t).
Proof.
  apply (build_idempotent img_2x2).
  unfold wf_image, INT_MAX. simpl. lia.
Defined.

(** ** The regions of the nodes of a built tree *)

Lemma Built_color (image : Mat) (n : Quadrant) :
  Built image n ->
  exists region,
    Mat_roi image (bbox n) = Ok region /\ color n = average_color region.
Proof.
  intros HB. destruct HB as
    [q q0 Hq0 Heq _ | q q0 c0 c1 c2 c3 Hq0 Heq _ _ _ _ _ _ _ _ _ _ _ _ _];
    destruct (Quadrant_new_inv _ _ _ _ Hq0) as [region [Hroi Hq0eq]];
    exists region; (split; [exact Hroi|]); rewrite Heq, Hq0eq; reflexivity.
Qed.

(** The bbox of every node of a built subtree lies in the bbox of the
    root of the subtree. *)
Lemma Built_nodes_inside (image : Mat) (q : Quadrant) :
  Built image q ->
  forall n, In n (nodes q) ->
  forall px py, inside (bbox n) px py -> inside (bbox q) px py.
Proof.
  intros HB. induction HB as
    [q q0 Hq0 Heq Hstop
    | q q0 c0 c1 c2 c3 Hq0 Heq Hns R0 R1 R2 R3 D0 D1 D2 D3
        B0 IH0 B1 IH1 B2 IH2 B3 IH3]; intros n Hn px py Hp.
  - destruct (Built_leaf_fields _ _ _ _ _ Hq0 Heq) as [Hc _].
    rewrite nodes_no_children in Hn by exact Hc.
    destruct Hn as [<- | []]. exact Hp.
  - destruct (Built_split_fields _ _ _ _ _ _ Hq0 Heq) as [Hc _].
    rewrite (nodes_four q c0 c1 c2 c3) in Hn by exact Hc.
    destruct Hn as [<- | Hn]; [exact Hp|].
    destruct (Quadrant_new_inv _ _ _ _ Hq0) as [region [Hroi _]].
    destruct (Mat_roi_rect_in _ _ _ Hroi) as [[_ [Hw [_ [_ [Hh _]]]]] _].
    repeat (apply in_app_or in Hn; destruct Hn as [Hn | Hn]);
      [ specialize (IH0 n Hn px py Hp); rewrite R0 in IH0
      | specialize (IH1 n Hn px py Hp); rewrite R1 in IH1
      | specialize (IH2 n Hn px py Hp); rewrite R2 in IH2
      | specialize (IH3 n Hn px py Hp); rewrite R3 in IH3 ];
      eapply quadrant_rect_inside; eassumption.
Qed.

(** X8.  In the tree built over any well-formed image every node keeps
    the colour and the detail that the constructor computed over the
    node's own region, the bbox of every node lies in the image, and
    every pixel of it lies in the bbox of the root. *)
Theorem nodes_regions (image : Mat) :
  wf_image image ->
  exists t r,
    builds image t r /\
    bbox r = mkRect 0 0 (cols image) (rows image) /\
    forall n, In n (nodes r) ->
      rect_in image (bbox n) /\
      (forall px py, inside (bbox n) px py -> inside (bbox r) px py) /\
      exists region,
        Mat_roi image (bbox n) = Ok region /\
        color n = average_color region /\
        detail n = get_detail region.
Proof.
  intros Hwf.
  destruct (build_tree_builds image Hwf) as [t [r [Hb [HB [Hr _]]]]].
  exists t, r. split; [exact Hb|]. split; [exact Hr|]. intros n Hn.
  pose proof (Built_nodes _ _ HB n Hn) as HBn.
  split; [apply (Built_rect_in _ _ HBn)|].
  split; [apply (Built_nodes_inside _ _ HB n Hn)|].
  destruct (Built_color _ _ HBn) as [region [Hroi Hc]].
  destruct (Built_detail _ _ HBn) as [region' [Hroi' Hd]].
  rewrite Hroi in Hroi'. inversion Hroi'; subst region'.
  exists region. auto.
Qed.

Lemma nodes_regions_witness :
  exists t r,
    builds img_2x2 t r /\
    bbox r = mkRect 0 0 (cols img_2x2) (rows img_2x2) /\
    forall n, In n (nodes r) ->
      rect_in img_2x2 (bbox n) /\
      (forall px py, inside (bbox n) px py -> inside (bbox r) px py) /\
      exists region,
        Mat_roi img_2x2 (bbox n) = Ok region /\
        color n = average_color region /\
        detail n = get_detail region.
Proof.
  apply (nodes_regions img_2x2).
  unfold wf_image, INT_MAX. simpl. lia.
Defined.

(** ** The leaves of a built tree *)



Lemma leaves_in_nodes (q l : Quadrant) : In l (leaves q) -> In l (nodes q).
Proof. unfold leaves. intros H. apply filter_In in H. apply H. Qed.




Lemma pow2_step (d : Z) :
  0 <= d < MAX_DEPTH ->
  2 ^ (MAX_DEPTH - d) = 2 * 2 ^ (MAX_DEPTH - (d + 1)).
Proof.
  intros Hd. unfold MAX_DEPTH in *.
  replace (8 - d) with (Z.succ (8 - (d + 1))) by lia.
  apply Z.pow_succ_r. lia.
Qed.

Lemma divide_half (a e : Z) :
  (2 * e | a) -> (e | a / 2) /\ Z.odd a = false.
Proof.
  intros [z Hz]. subst a.
  replace (z * (2 * e)) with (z * e * 2) by ring.
  rewrite Z.div_mul by lia. split.
  - exists z. reflexivity.
  - pose proof (Zmod_odd (z * e * 2)) as Ho.
    rewrite Z.mod_mul in Ho by lia. destruct (Z.odd (z * e * 2)); [lia | reflexivity].
Qed.

(** While the sides of a node divide by 2 once for every level that
    may still follow, no pixel is lost: each lies in some leaf. *)
Lemma Built_leaves_cover (image : Mat) (q : Quadrant) :
  Built image q ->
  0 <= depth q <= MAX_DEPTH ->
  (2 ^ (MAX_DEPTH - depth q) | width (bbox q)) ->
  (2 ^ (MAX_DEPTH - depth q) | height (bbox q)) ->
  forall px py, inside (bbox q) px py ->
                exists l, In l (leaves q) /\ inside (bbox l) px py.
Proof.
  intros HB. induction HB as
    [q q0 Hq0 Heq Hstop
    | q q0 c0 c1 c2 c3 Hq0 Heq Hns R0 R1 R2 R3 D0 D1 D2 D3
        B0 IH0 B1 IH1 B2 IH2 B3 IH3]; intros Hd Hw Hh px py Hp.
  - destruct (Built_leaf_fields _ _ _ _ _ Hq0 Heq) as [Hc Hl].
    exists q. split; [|exact Hp].
    unfold leaves. apply filter_In. split; [apply nodes_self | exact Hl].
  - destruct (Built_split_fields _ _ _ _ _ _ Hq0 Heq) as [Hc Hl].
    assert (Hlt : depth q < MAX_DEPTH).
    { destruct (Z.lt_ge_cases (depth q) MAX_DEPTH) as [H|H]; [exact H|].
      exfalso. apply Hns. left. exact H. }
    rewrite pow2_step in Hw, Hh by lia.
    destruct (divide_half _ _ Hw) as [Hw2 Hwo].
    destruct (divide_half _ _ Hh) as [Hh2 Hho].
    assert (Hsub : forall c k,
               bbox c = quadrant_rect (bbox q) k -> depth c = depth q + 1 ->
               0 <= depth c <= MAX_DEPTH /\
               (2 ^ (MAX_DEPTH - depth c) | width (bbox c)) /\
               (2 ^ (MAX_DEPTH - depth c) | height (bbox c))).
    { intros c k Rc Dc. rewrite Rc, Dc.
      destruct (quadrant_rect_size (bbox q) k) as [-> ->].
      split; [lia | split; assumption]. }
    assert (Hup : forall c, In (Some c) (children q) ->
                  (exists l, In l (leaves c) /\ inside (bbox l) px py) ->
                  exists l, In l (leaves q) /\ inside (bbox l) px py).
    { intros c Hin [l [Hlc Hlp]]. exists l. split; [|exact Hlp].
      unfold leaves in *. apply filter_In in Hlc. destruct Hlc as [Hn Hf].
      apply filter_In. split; [|exact Hf].
      rewrite nodes_unfold. right. apply in_flat_map.
      exists (Some c). split; assumption. }
    rewrite Hc in Hup.
    destruct (quadrant_rect_cover (bbox q) px py Hp)
      as [[H | [H | [H | H]]] | [[Ho _] | [Ho _]]]; try congruence.
    + destruct (Hsub c0 0%nat R0 D0) as [A [B C]]. rewrite <- R0 in H.
      apply (Hup c0); [simpl; auto | apply IH0; assumption].
    + destruct (Hsub c1 1%nat R1 D1) as [A [B C]]. rewrite <- R1 in H.
      apply (Hup c1); [simpl; auto | apply IH1; assumption].
    + destruct (Hsub c2 2%nat R2 D2) as [A [B C]]. rewrite <- R2 in H.
      apply (Hup c2); [simpl; auto | apply IH2; assumption].
    + destruct (Hsub c3 3%nat R3 D3) as [A [B C]]. rewrite <- R3 in H.
      apply (Hup c3); [simpl; auto 6 | apply IH3; assumption].
Qed.

(** X10.  When the width and the height of a well-formed image are
    multiples of 256 (2 to the power MAX_DEPTH), halving never leaves a
    remainder: every pixel of the image lies in the region of a leaf of
    the built tree. *)
Theorem leaves_cover (image : Mat) :
  wf_image image ->
  (256 | cols image) -> (256 | rows image) ->
  exists t r,
    builds image t r /\
    forall px py, 0 <= px < cols image -> 0 <= py < rows image ->
                  exists l, In l (leaves r) /\ inside (bbox l) px py.
Proof.
  intros Hwf Hc Hrw.
  destruct (build_tree_builds image Hwf) as [t [r [Hb [HB [Hr [Hd _]]]]]].
  exists t, r. split; [exact Hb|]. intros px py Hx Hy.
  apply (Built_leaves_cover _ _ HB).
  - rewrite Hd. unfold MAX_DEPTH. lia.
  - rewrite Hd, Hr. exact Hc.
  - rewrite Hd, Hr. exact Hrw.
  - rewrite Hr. unfold inside. simpl. lia.
Qed.

Lemma leaves_cover_witness :
  exists t r,
    builds img_white_4096 t r /\
    forall px py, 0 <= px < cols img_white_4096 ->
                  0 <= py < rows img_white_4096 ->
                  exists l, In l (leaves r) /\ inside (bbox l) px py.
Proof.
  apply (leaves_cover img_white_4096).
  - unfold wf_image, INT_MAX. simpl. lia.
  - exists 16. reflexivity.
  - exists 16. reflexivity.
Defined.

(** ** The size of a built tree *)

Lemma Built_count (image : Mat) (q : Quadrant) :
  Built image q ->
  0 <= depth q <= MAX_DEPTH ->
  let inner := length (filter (fun n => negb (is_leaf n)) (nodes q)) in
  length (nodes q) = (4 * inner + 1)%nat /\
  length (leaves q) = (3 * inner + 1)%nat /\
  3 * Z.of_nat (length (nodes q)) + 1 <= 4 ^ (MAX_DEPTH + 1 - depth q).
Proof.
  intros HB. induction HB as
    [q q0 Hq0 Heq Hstop
    | q q0 c0 c1 c2 c3 Hq0 Heq Hns R0 R1 R2 R3 D0 D1 D2 D3
        B0 IH0 B1 IH1 B2 IH2 B3 IH3]; intros Hd.
  - destruct (Built_leaf_fields _ _ _ _ _ Hq0 Heq) as [Hc Hl].
    cbv zeta. unfold leaves. rewrite (nodes_no_children q Hc). cbn [filter].
    rewrite Hl. cbn [negb length]. split; [reflexivity|]. split; [reflexivity|].
    replace (MAX_DEPTH + 1 - depth q)
      with (Z.succ (MAX_DEPTH - depth q)) by lia.
    rewrite Z.pow_succ_r by lia.
    assert (0 < 4 ^ (MAX_DEPTH - depth q)) by (apply Z.pow_pos_nonneg; lia).
    lia.
  - destruct (Built_split_fields _ _ _ _ _ _ Hq0 Heq) as [Hc Hl].
    assert (Hlt : depth q < MAX_DEPTH).
    { destruct (Z.lt_ge_cases (depth q) MAX_DEPTH) as [H|H]; [exact H|].
      exfalso. apply Hns. left. exact H. }
    assert (Hd' : 0 <= depth q + 1 <= MAX_DEPTH) by lia.
    rewrite D0 in IH0. rewrite D1 in IH1. rewrite D2 in IH2. rewrite D3 in IH3.
    destruct (IH0 Hd') as [N0 [L0 P0]]. destruct (IH1 Hd') as [N1 [L1 P1]].
    destruct (IH2 Hd') as [N2 [L2 P2]]. destruct (IH3 Hd') as [N3 [L3 P3]].
    cbv zeta. unfold leaves in *.
    rewrite (nodes_four q c0 c1 c2 c3 Hc). cbn [filter length].
    rewrite Hl. cbn [negb length].
    rewrite !filter_app, !length_app.
    rewrite N0, N1, N2, N3, L0, L1, L2, L3.
    split; [lia|]. split; [lia|].
    replace (MAX_DEPTH + 1 - depth q)
      with (Z.succ (MAX_DEPTH + 1 - (depth q + 1))) by lia.
    rewrite Z.pow_succ_r by lia.
    rewrite N0 in P0. rewrite N1 in P1. rewrite N2 in P2. rewrite N3 in P3.
    lia.
Qed.

(** X11.  The tree built over any well-formed image has one node more
    than four times its number of split nodes, one leaf more than three
    times that number, and at most 87381 nodes in all. *)
Theorem tree_size (image : Mat) :
  wf_image image ->
  exists t r,
    builds image t r /\
    let inner := length (filter (fun n => negb (is_leaf n)) (nodes r)) in
    length (nodes r) = (4 * inner + 1)%nat /\
    length (leaves r) = (3 * inner + 1)%nat /\
    Z.of_nat (length (nodes r)) <= 87381.
Proof.
  intros Hwf.
  destruct (build_tree_builds image Hwf) as [t [r [Hb [HB [_ [Hd _]]]]]].
  exists t, r. split; [exact Hb|].
  destruct (Built_count _ _ HB) as [HN [HL HP]].
  { rewrite Hd. unfold MAX_DEPTH. lia. }
  cbv zeta. split; [exact HN|]. split; [exact HL|].
  rewrite Hd in HP. unfold MAX_DEPTH in HP.
  change (4 ^ (8 + 1 - 0)) with 262144 in HP. lia.
Qed.

Lemma tree_size_witness :
  exists t r,
    builds img_2x2 t r /\
    let inner := length (filter (fun n => negb (is_leaf n)) (nodes r)) in
    length (nodes r) = (4 * inner + 1)%nat /\
    length (leaves r) = (3 * inner + 1)%nat /\
    Z.of_nat (length (nodes r)) <= 87381.
Proof.
  apply (tree_size img_2x2).
  unfold wf_image, INT_MAX. simpl. lia.
Defined.

(** ** Rendering and teardown on any tree *)

Lemma create_image_built_witness :
  exists t r,
    builds img_2x2 t r /\
    forall (fuel : nat) (d : Z) (show_lines : bool),
      create_image (S fuel) t d show_lines
      = Ok (let blank := Mat_zeros (rows img_2x2) (cols img_2x2) in
            if is_leaf r || (d =? 0) then
              let filled :=
                draw blank (rectangle (bbox r) (color_scalar (color r))
                                      FILLED) in
              if show_lines
              then draw filled (rectangle (bbox r) (0, 0, 0) 1)
              else filled
            else blank).
Proof.
  apply (create_image_built img_2x2).
  unfold wf_image, INT_MAX. simpl. lia.
Defined.

Lemma QuadTree_delete_built_witness :
  exists t r,
    builds img_2x2 t r /\
    forall fuel : nat,
      QuadTree_delete (S (S fuel)) t
      = if is_leaf r then Fault NullDeref else Ok [].
Proof.
  apply (QuadTree_delete_built img_2x2).
  unfold wf_image, INT_MAX. simpl. lia.
Defined.

Lemma for_state_unchanged {A S : Type} (f : S -> A -> res S) (l : list A) :
  (forall st a st', f st a = Ok st' -> st' = st) ->
  forall st st', for_state f st l = Ok st' -> st' = st.
Proof.
  intros H. induction l as [|a l IH]; intros st st' E; cbn [for_state] in E.
  - inversion E. reflexivity.
  - destruct (f st a) as [st1|e] eqn:E1; cbn [bind] in E; [|discriminate].
    apply H in E1. subst st1. apply IH, E.
Qed.

Lemma free_quadtree_null (fuel : nat) (freed : list Deleted) :
  exists e, free_quadtree fuel freed None = Fault e.
Proof. destruct fuel; eexists; reflexivity. Qed.

Lemma draw_quadrants_null (fuel : nat) (image : Canvas) (d : Z) (s : bool) :
  exists e, draw_quadrants fuel image None d s = Fault e.
Proof. destruct fuel; eexists; reflexivity. Qed.

(** X14.  On any tree, built or not, and with any fuel, [free_quadtree]
    evaluates no [delete]: whenever it returns, the list of deletions is
    the one it was given. *)
Theorem free_quadtree_deletes_nothing (fuel : nat) (freed out : list Deleted)
        (quad : option Quadrant) :
  free_quadtree fuel freed quad = Ok out -> out = freed.
Proof.
  destruct fuel as [|fuel]; [discriminate|].
  destruct quad as [q|]; [|discriminate]. cbn [free_quadtree].
  apply for_state_unchanged. intros st [c|] st' E.
  - inversion E. reflexivity.
  - destruct (free_quadtree_null fuel st) as [e He].
    rewrite He in E. discriminate.
Qed.

Lemma free_quadtree_deletes_nothing_witness :
  let leaf := mkQuadrant (mkRect 0 0 1 1) 1 true [None; None; None; None]
                         black 0%R in
  let q := mkQuadrant (mkRect 0 0 2 2) 0 false
                      [Some leaf; Some leaf; Some leaf; Some leaf]
                      black 20%R in
  free_quadtree 3 [DeleteNode leaf] (Some q) = Ok [DeleteNode leaf] /\
  [DeleteNode leaf] = [DeleteNode leaf].
Proof.
  intros leaf q. split; [reflexivity|].
  apply (free_quadtree_deletes_nothing 3 [DeleteNode leaf] [DeleteNode leaf]
                                       (Some q)).
  reflexivity.
Defined.

(** X15.  On any tree, built or not, [draw_quadrants] draws for no node
    but the one it is called on: whenever it returns, the image is
    unchanged, or it has gained the filled rectangle of that node in
    the node's colour, followed by the black outline when borders are
    asked for. *)
Theorem draw_quadrants_only_own_node (fuel : nat) (image out : Canvas)
        (quad : option Quadrant) (d : Z) (show_lines : bool) :
  draw_quadrants fuel image quad d show_lines = Ok out ->
  out = image \/
  exists q,
    quad = Some q /\
    out = (let filled :=
             draw image (rectangle (bbox q) (color_scalar (color q))
                                   FILLED) in
           if show_lines
           then draw filled (rectangle (bbox q) (0, 0, 0) 1)
           else filled).
Proof.
  destruct fuel as [|fuel]; [discriminate|].
  destruct quad as [q|]; [|discriminate]. cbn [draw_quadrants].
  destruct ((Z.b2z (is_leaf q) =? d) || is_leaf q).
  - intros E. inversion E. right. exists q. split; reflexivity.
  - intros E. left. revert E.
    apply for_state_unchanged. intros st [c|] st' E.
    + inversion E. reflexivity.
    + destruct (draw_quadrants_null fuel st d show_lines) as [e He].
      rewrite He in E. discriminate.
Qed.

Lemma draw_quadrants_only_own_node_witness :
  let leaf := mkQuadrant (mkRect 0 0 1 1) 1 true [None; None; None; None]
                         white 0%R in
  let q := mkQuadrant (mkRect 0 0 2 2) 0 false
                      [Some leaf; Some leaf; Some leaf; Some leaf]
                      black 20%R in
  draw_quadrants 3 (Mat_zeros 2 2) (Some q) 1 true = Ok (Mat_zeros 2 2) /\
  (Mat_zeros 2 2 = Mat_zeros 2 2 \/
   exists q',
     Some q = Some q' /\
     Mat_zeros 2 2
     = (let filled :=
          draw (Mat_zeros 2 2)
               (rectangle (bbox q') (color_scalar (color q')) FILLED) in
        if true
        then draw filled (rectangle (bbox q') (0, 0, 0) 1)
        else filled)).
Proof.
  intros leaf q. split; [reflexivity|].
  apply (draw_quadrants_only_own_node 3 (Mat_zeros 2 2) (Mat_zeros 2 2)
                                      (Some q) 1 true).
  reflexivity.
Defined.

(** X16.  A tree on which [build] was never run: over any well-formed
    image the constructor succeeds, and on the tree it returns both
    rendering at a depth other than 0 and the destructor dereference a
    null pointer, while rendering at depth 0 fills the root. *)
Theorem unbuilt_tree (image : Mat) :
  wf_image image ->
  exists t r,
    QuadTree_new image = Ok t /\ root t = Some r /\ max_depth t = 0 /\
    (forall fuel d show_lines,
        d <> 0 ->
        create_image (S (S fuel)) t d show_lines = Fault NullDeref) /\
    (forall fuel show_lines,
        create_image (S fuel) t 0 show_lines
        = Ok (let filled :=
                draw (Mat_zeros (rows image) (cols image))
                     (rectangle (bbox r) (color_scalar (color r)) FILLED) in
              if show_lines
              then draw filled (rectangle (bbox r) (0, 0, 0) 1)
              else filled)) /\
    (forall fuel, QuadTree_delete (S (S fuel)) t = Fault NullDeref).
Proof.
  intros Hwf.
  assert (Hin : rect_in image (mkRect 0 0 (cols image) (rows image))).
  { destruct Hwf as [Hr Hc]. unfold rect_in. simpl. lia. }
  destruct (Quadrant_new_total image _ 0 Hin) as [q [Hq _]].
  destruct (Quadrant_new_inv _ _ _ _ Hq) as [region [_ Heq]].
  exists (mkQuadTree (Some q) 0), q.
  split; [unfold QuadTree_new; rewrite Hq; reflexivity|].
  split; [reflexivity|]. split; [reflexivity|].
  subst q. split; [|split].
  - intros fuel d show_lines Hd. unfold create_image.
    cbn [root draw_quadrants is_leaf Z.b2z orb children].
    destruct (Z.eqb_spec 0 d) as [E|_]; [congruence|]. reflexivity.
  - intros fuel show_lines. reflexivity.
  - intros fuel. reflexivity.
Qed.

Lemma unbuilt_tree_witness :
  exists t r,
    QuadTree_new img_2x2 = Ok t /\ root t = Some r /\ max_depth t = 0 /\
    (forall fuel d show_lines,
        d <> 0 ->
        create_image (S (S fuel)) t d show_lines = Fault NullDeref) /\
    (forall fuel show_lines,
        create_image (S fuel) t 0 show_lines
        = Ok (let filled :=
                draw (Mat_zeros (rows img_2x2) (cols img_2x2))
                     (rectangle (bbox r) (color_scalar (color r)) FILLED) in
              if show_lines
              then draw filled (rectangle (bbox r) (0, 0, 0) 1)
              else filled)) /\
    (forall fuel, QuadTree_delete (S (S fuel)) t = Fault NullDeref).
Proof.
  apply (unbuilt_tree img_2x2).
  unfold wf_image, INT_MAX. simpl. lia.
Defined.

(** ** The recorded depth *)

(** X18.  After [build] over any well-formed image [max_depth] lies
    between 0 and MAX_DEPTH, and it is 0 exactly when the root is a
    leaf. *)
Theorem max_depth_range (image : Mat) :
  wf_image image ->
  exists t r,
    builds image t r /\
    0 <= max_depth t <= MAX_DEPTH /\
    (max_depth t = 0 <-> is_leaf r = true).
Proof.
  intros Hwf.
  destruct (build_tree_builds image Hwf)
    as [t [r [Hb [HB [_ [Hd [Hin Hle]]]]]]].
  exists t, r. split; [exact Hb|].
  assert (Hrange : forall l, In l (leaves r) -> 0 <= depth l <= MAX_DEPTH).
  { intros l Hl. pose proof (Built_depth_range _ _ HB l (leaves_in_nodes _ _ Hl)).
    rewrite Hd in *. unfold MAX_DEPTH in *. lia. }
  split.
  - destruct Hin as [<- | Hi]; [unfold MAX_DEPTH; lia|].
    apply in_map_iff in Hi. destruct Hi as [l [<- Hl]]. apply Hrange, Hl.
  - split.
    + intros H0. destruct (is_leaf r) eqn:Hl; [reflexivity | exfalso].
      destruct (Built_split_children _ _ HB Hl)
        as [c0 [c1 [c2 [c3 [Hc [_ [[D0 _] _]]]]]]].
      assert (HB0 : Built image c0).
      { apply (Built_nodes _ _ HB), nodes_child. rewrite Hc. left. reflexivity. }
      destruct (Built_has_leaf _ _ HB0) as [l Hlf].
      pose proof (Built_depth_range _ _ HB0 l (leaves_in_nodes _ _ Hlf)) as Hdl.
      assert (Hlr : In l (leaves r)).
      { unfold leaves in *. apply filter_In in Hlf. destruct Hlf as [Hn Hf].
        apply filter_In. split; [|exact Hf].
        rewrite (nodes_four r c0 c1 c2 c3 Hc). right.
        apply in_or_app. left. exact Hn. }
      assert (depth l <= max_depth t)
        by (apply Hle; right; apply in_map; exact Hlr).
      lia.
    + intros Hl. pose proof (Built_leaf_children _ _ HB Hl) as Hc.
      unfold leaves in Hin. rewrite (nodes_no_children r Hc) in Hin.
      cbn [filter] in Hin. rewrite Hl in Hin. simpl in Hin.
      destruct Hin as [H | [H | []]]; lia.
Qed.

Lemma max_depth_range_witness :
  exists t r,
    builds img_2x2 t r /\
    0 <= max_depth t <= MAX_DEPTH /\
    (max_depth t = 0 <-> is_leaf r = true).
Proof.
  apply (max_depth_range img_2x2).
  unfold wf_image, INT_MAX. simpl. lia.
Defined.
